(** * CredentialRegistry: a credential ledger keyed by document hash

    A shallow embedding of [contracts/contracts/CredentialRegistry.sol]
    (issue / revoke / verify behind role checks) and of the way the
    front end ([frontend/src/App.jsx], [frontend/src/contract.js]) reads
    its results, followed by the properties of the ledger.

    Conventions.  A [bytes32], an [address] and a [uint64] are integers
    ([Z]); a Solidity [mapping] is a finite map read with the type's zero
    value as default; a transaction either commits its whole effect or
    reverts and leaves the state as it was. *)

From Stdlib Require Import ZArith NArith List Lia String Ascii Permutation Sorted.
From Stdlib.Strings Require Import Byte.
From stdpp Require Import base option gmap list strings sorting.

Local Open Scope Z_scope.

(** ** Values *)

(** [uint64(x)]: the explicit narrowing conversion of Solidity 0.8, which
    keeps the low 64 bits. *)
Definition uint64 (x : Z) : Z := x mod 2 ^ 64.

(** [DEFAULT_ADMIN_ROLE] of the access-control base contract. *)
Definition DEFAULT_ADMIN_ROLE : Z := 0.

(** [ISSUER_ROLE = keccak256("ISSUER_ROLE")]. *)
Definition ISSUER_ROLE : Z :=
  0x114e74f6ea3bd819998f78687bfcb11b140da08e9b7d222fa9c1f1ba1f2aa122.

(** [struct Record { uint64 issuedAt; bool revoked; address issuer; }] *)
Record CredRecord : Type := mkRecord {
  issuedAt : Z;
  revoked : bool;
  issuer : Z
}.

(** The value a mapping slot holds before anything is written to it. *)
Definition zeroRecord : CredRecord := mkRecord 0 false 0.

(** [event Issued(bytes32 indexed docHash, address indexed issuer, uint64 issuedAt)]
    and [event Revoked(bytes32 indexed docHash, address indexed issuer, uint64 revokedAt)]. *)
Inductive Event : Type :=
| Issued (docHash issuer issuedAt : Z)
| Revoked (docHash issuer revokedAt : Z).

(** Modelled from the spec: the ledger that carries the contract is not part
    of the sources; it stamps every appended event with a sequence number
    (section 3, "Event", and section 4.5).  The number is the entry's
    position in the log. *)
Record LogEntry : Type := mkEntry {
  entry_seq : nat;
  entry_event : Event
}.

(** The contract's storage together with the log of its two events.
    [roles] is the access-control table: the pairs (role, account) for
    which [hasRole] answers true. *)
Record State : Type := mkState {
  roles : gset (Z * Z);
  records : gmap Z CredRecord;
  log : list LogEntry
}.

(** What a call sees of its transaction: [msg.sender], [block.timestamp]. *)
Record Env : Type := mkEnv {
  msg_sender : Z;
  block_timestamp : Z
}.

(** The failure kinds of the specification.  The contract's reverts map to
    them: the role check to [Unauthorized], ["already issued"] to
    [AlreadyIssued], ["not issued"] to [NotIssued].  [BadConfirmation] is
    not one of the specification's: it is the revert of the access-control
    library's [renounceRole] when the account named is not the caller. *)
Inductive Error : Type :=
| AlreadyIssued
| NotIssued
| AlreadyRevoked
| InvalidSignature
| Unauthorized
| EncodingError
| BadConfirmation.

(** ** Transactions as a state-and-error monad *)

Inductive Outcome (A : Type) : Type :=
| Done (a : A) (st : State)
| Reverted (e : Error).
Arguments Done {A} a st.
Arguments Reverted {A} e.

Definition Tx (A : Type) : Type := Env -> State -> Outcome A.

#[export] Instance tx_ret : MRet Tx := fun A a _ st => Done a st.

#[export] Instance tx_bind : MBind Tx := fun A B k m env st =>
  match m env st with
  | Done a st' => k a env st'
  | Reverted e => Reverted e
  end.

Definition msgSender : Tx Z := fun env st => Done (msg_sender env) st.
Definition blockTimestamp : Tx Z := fun env st => Done (block_timestamp env) st.

(** [require(cond, reason)] *)
Definition require (cond : bool) (e : Error) : Tx unit := fun _ st =>
  if cond then Done tt st else Reverted e.

(** Reading [records[docHash]]. *)
Definition recordOf (st : State) (docHash : Z) : CredRecord :=
  default zeroRecord (records st !! docHash).

Definition load (docHash : Z) : Tx CredRecord := fun _ st =>
  Done (recordOf st docHash) st.

(** Writing [records[docHash] = r]. *)
Definition store (docHash : Z) (r : CredRecord) : Tx unit := fun _ st =>
  Done tt (mkState (roles st) (<[docHash := r]> (records st)) (log st)).

(** [emit e]: the event is appended with the next sequence number. *)
Definition emit (e : Event) : Tx unit := fun _ st =>
  Done tt (mkState (roles st) (records st)
                   (log st ++ [mkEntry (length (log st)) e])).

(** ** Access control

    The contract inherits from [AccessControl], imported from
    [@openzeppelin/contracts]; the library is not part of the sources.
    The contract uses [onlyRole], [_grantRole], [_revokeRole] and
    [DEFAULT_ADMIN_ROLE] of it, and the front end's ABI lists [hasRole]. *)

(** Modelled from the spec: [hasRole(role, identity)] of the imported
    access-control ledger (section 4.3), a pure read of the role table. *)
Definition hasRole (st : State) (role account : Z) : bool :=
  bool_decide ((role, account) ∈ roles st).

(** Modelled from the spec: the [onlyRole(role)] modifier of the imported
    access-control ledger; a caller that does not hold the role is turned
    away with [Unauthorized] before the body runs (sections 4.3 and 9). *)
Definition onlyRole (role : Z) : Tx unit := fun env st =>
  if hasRole st role (msg_sender env) then Done tt st else Reverted Unauthorized.

(** Modelled from the spec: the internal [_grantRole] of the imported
    access-control ledger; membership takes effect at once (section 4.3). *)
Definition _grantRole (role account : Z) : Tx unit := fun _ st =>
  if hasRole st role account then Done tt st
  else Done tt (mkState ({[ (role, account) ]} ∪ roles st) (records st) (log st)).

(** Modelled from the spec: the internal [_revokeRole] of the imported
    access-control ledger (section 4.3). *)
Definition _revokeRole (role account : Z) : Tx unit := fun _ st =>
  if hasRole st role account
  then Done tt (mkState (roles st ∖ {[ (role, account) ]}) (records st) (log st))
  else Done tt st.

(** Modelled from the spec: [grant(role, identity)] of the imported
    access-control ledger, restricted to callers holding the admin role,
    [Unauthorized] otherwise (section 4.3).  The admin of every role is
    [DEFAULT_ADMIN_ROLE]; the contract never changes it. *)
Definition grantRole (role account : Z) : Tx unit :=
  onlyRole DEFAULT_ADMIN_ROLE ;; _grantRole role account.

(** Modelled from the spec: [revoke(role, identity)] of the imported
    access-control ledger, restricted like [grantRole] (section 4.3). *)
Definition revokeRole (role account : Z) : Tx unit :=
  onlyRole DEFAULT_ADMIN_ROLE ;; _revokeRole role account.

(** [renounceRole(role, callerConfirmation)] of the imported access-control
    library, which the contract inherits as a public function; neither the
    sources nor the specification show it.  A caller gives up a role of
    its own: the call reverts unless [callerConfirmation] is the caller,
    and then removes the caller's membership through [_revokeRole]. *)
Definition renounceRole (role callerConfirmation : Z) : Tx unit :=
  sender ← msgSender;
  require (bool_decide (callerConfirmation = sender)) BadConfirmation ;;
  _revokeRole role callerConfirmation.

(** ** The contract *)

(** Storage and log of a contract that is being deployed. *)
Definition empty_state : State := mkState ∅ ∅ [].

(** [constructor(address admin)]: [_grantRole(DEFAULT_ADMIN_ROLE, admin)],
    then [_grantRole(ISSUER_ROLE, admin)], on the empty storage.  The
    state it leaves is the state of the deployed contract. *)
Definition constructor (admin : Z) : State :=
  match (_grantRole DEFAULT_ADMIN_ROLE admin ;; _grantRole ISSUER_ROLE admin)
          (mkEnv admin 0) empty_state with
  | Done _ st => st
  | Reverted _ => empty_state
  end.

Definition addIssuer (account : Z) : Tx unit :=
  onlyRole DEFAULT_ADMIN_ROLE ;; _grantRole ISSUER_ROLE account.

Definition removeIssuer (account : Z) : Tx unit :=
  onlyRole DEFAULT_ADMIN_ROLE ;; _revokeRole ISSUER_ROLE account.

Definition issue (docHash : Z) : Tx unit :=
  onlyRole ISSUER_ROLE ;;
  r ← load docHash;
  require (issuedAt r =? 0) AlreadyIssued ;;
  sender ← msgSender;
  now ← blockTimestamp;
  store docHash (mkRecord (uint64 now) false sender) ;;
  emit (Issued docHash sender (uint64 now)).

Definition revoke (docHash : Z) : Tx unit :=
  onlyRole ISSUER_ROLE ;;
  r ← load docHash;
  require (negb (issuedAt r =? 0)) NotIssued ;;
  store docHash (mkRecord (issuedAt r) true (issuer r)) ;;
  sender ← msgSender;
  now ← blockTimestamp;
  emit (Revoked docHash sender (uint64 now)).

(** [verify] is a [view] function: it returns
    [(issued, revoked, issuedAt, issuer)]. *)
Definition verify (docHash : Z) : Tx (bool * bool * Z * Z) :=
  r ← load docHash;
  mret (negb (issuedAt r =? 0), revoked r, issuedAt r, issuer r).

(** ** Calls and histories *)

(** The state-changing entry points of the deployed contract: the four
    functions it declares and the three it inherits from the access-control
    library. *)
Inductive Call : Type :=
| CallIssue (docHash : Z)
| CallRevoke (docHash : Z)
| CallAddIssuer (account : Z)
| CallRemoveIssuer (account : Z)
| CallGrantRole (role account : Z)
| CallRevokeRole (role account : Z)
| CallRenounceRole (role callerConfirmation : Z).

Record Transaction : Type := mkTx {
  tx_env : Env;
  tx_call : Call
}.

Definition dispatch (c : Call) : Tx unit :=
  match c with
  | CallIssue h => issue h
  | CallRevoke h => revoke h
  | CallAddIssuer a => addIssuer a
  | CallRemoveIssuer a => removeIssuer a
  | CallGrantRole r a => grantRole r a
  | CallRevokeRole r a => revokeRole r a
  | CallRenounceRole r a => renounceRole r a
  end.

Definition execute (st : State) (tx : Transaction) : Outcome unit :=
  dispatch (tx_call tx) (tx_env tx) st.

(** A transaction that reverts leaves the state it found. *)
Definition apply_tx (st : State) (tx : Transaction) : State :=
  match execute st tx with
  | Done _ st' => st'
  | Reverted _ => st
  end.

Definition run (st : State) (txs : list Transaction) : State :=
  fold_left apply_tx txs st.

Definition succeeds (st : State) (tx : Transaction) : bool :=
  match execute st tx with
  | Done _ _ => true
  | Reverted _ => false
  end.

(** The event a call emits when it goes through. *)
Definition event_of (tx : Transaction) : option Event :=
  match tx_call tx with
  | CallIssue h =>
      Some (Issued h (msg_sender (tx_env tx)) (uint64 (block_timestamp (tx_env tx))))
  | CallRevoke h =>
      Some (Revoked h (msg_sender (tx_env tx)) (uint64 (block_timestamp (tx_env tx))))
  | _ => None
  end.

(** The transactions of a history that went through, in the order they
    were applied. *)
Fixpoint successes (st : State) (txs : list Transaction) : list Transaction :=
  match txs with
  | [] => []
  | tx :: rest =>
      (if succeeds st tx then [tx] else []) ++ successes (apply_tx st tx) rest
  end.

(** ** Predicates on calls, records and logs *)

(** The call is an [issue] of hash [h]. *)
Definition is_issue_of (h : Z) (tx : Transaction) : bool :=
  match tx_call tx with
  | CallIssue h' => bool_decide (h' = h)
  | _ => false
  end.

(** The call is one of the two credential transitions. *)
Definition is_credential_call (tx : Transaction) : bool :=
  match tx_call tx with
  | CallIssue _ | CallRevoke _ => true
  | _ => false
  end.

(** The call hands the issuer role to [X]. *)
Definition grants_issuer (X : Z) (tx : Transaction) : bool :=
  match tx_call tx with
  | CallAddIssuer a => bool_decide (a = X)
  | CallGrantRole r a => bool_decide ((r, a) = (ISSUER_ROLE, X))
  | _ => false
  end.

(** A record that was never issued is not revoked. *)
Definition record_invariant (st : State) : Prop :=
  forall h, issuedAt (recordOf st h) = 0 -> revoked (recordOf st h) = false.

(** Every entry carries its position as sequence number. *)
Definition well_numbered (l : list LogEntry) : Prop :=
  map entry_seq l = seq 0 (length l).

(** ** More predicates on calls and logs *)

(** The call is one of the four state-changing functions the contract
    declares itself: [issue], [revoke], [addIssuer], [removeIssuer]. *)
Definition is_own_call (tx : Transaction) : bool :=
  match tx_call tx with
  | CallGrantRole _ _ | CallRevokeRole _ _ | CallRenounceRole _ _ => false
  | _ => true
  end.

(** The call is [addIssuer] or [removeIssuer]. *)
Definition is_issuer_admin_call (tx : Transaction) : bool :=
  match tx_call tx with
  | CallAddIssuer _ | CallRemoveIssuer _ => true
  | _ => false
  end.

(** The event is an [Issued] of hash [h] with a time that is not zero. *)
Definition is_dated_issue (h : Z) (e : Event) : bool :=
  match e with
  | Issued h' _ t => bool_decide (h' = h) && negb (t =? 0)
  | Revoked _ _ _ => false
  end.

(** How many such events a log holds. *)
Definition dated_issues (h : Z) (l : list LogEntry) : nat :=
  length (List.filter (is_dated_issue h) (map entry_event l)).

(** The time an event carries. *)
Definition event_time (e : Event) : Z :=
  match e with
  | Issued _ _ t => t
  | Revoked _ _ t => t
  end.

(** ** The front end: hashing a file ([sha256File])

    [sha256File] returns
    ["0x" + [...new Uint8Array(hash)].map(b => b.toString(16).padStart(2, "0")).join("")]
    for the digest [hash] the platform computes. *)

Definition hex_digits : list ascii := list_ascii_of_string "0123456789abcdef".

Definition hex_digit (d : N) : ascii := nth (N.to_nat d) hex_digits "0"%char.

(** [n.toString(16)], most significant digit first. *)
Fixpoint toString16_fuel (fuel : nat) (n : N) : list ascii :=
  match fuel with
  | O => []
  | S fuel' =>
      if (n <? 16)%N then [hex_digit n]
      else toString16_fuel fuel' (n / 16)%N ++ [hex_digit (n mod 16)%N]
  end.

Definition toString16 (n : N) : list ascii :=
  toString16_fuel (S (N.to_nat (N.log2 n))) n.

(** [s.padStart(targetLength, padString)]: [s] itself when it is long
    enough or the filler is empty, else the filler repeated and cut to the
    missing length, then [s]. *)
Definition padStart (targetLength : nat) (padString s : list ascii) : list ascii :=
  match padString with
  | [] => s
  | _ =>
      let missing := (targetLength - length s)%nat in
      take missing (concat (replicate missing padString)) ++ s
  end.

(** The two characters written for one byte. *)
Definition byte_hex (b : byte) : list ascii :=
  padStart 2 ["0"%char] (toString16 (Byte.to_N b)).

(** [sha256File(file)], with the platform's [crypto.subtle.digest] as
    [subtle_digest]. *)
Definition sha256File (subtle_digest : list byte -> list byte) (file : list byte)
    : list ascii :=
  list_ascii_of_string "0x" ++ concat (map byte_hex (subtle_digest file)).

(** Reading hexadecimal back, two characters a byte; used to state that
    nothing is lost in [sha256File]. *)
Definition hex_value (c : ascii) : option N :=
  N.of_nat <$> (fst <$> list_find (fun d => d = c) hex_digits).

Fixpoint bytes_of_hex (s : list ascii) : option (list byte) :=
  match s with
  | [] => Some []
  | hi :: lo :: rest =>
      h ← hex_value hi;
      l ← hex_value lo;
      b ← Byte.of_N (16 * h + l)%N;
      bs ← bytes_of_hex rest;
      Some (b :: bs)
  | _ => None
  end.

(** A [bytes32] literal as the contract call takes it: ["0x"] and 64
    lower-case hexadecimal digits. *)
Definition is_bytes32_literal (s : list ascii) : bool :=
  match s with
  | z :: x :: digits =>
      bool_decide (z = "0"%char) && bool_decide (x = "x"%char)
      && (length digits =? 64)%nat
      && forallb (fun c => bool_decide (c ∈ hex_digits)) digits
  | _ => false
  end.

(** ** The front end: the audit feed ([loadEvents]) *)

(** What [queryFilter] returns for one log of the contract: the decoded
    event, from which [e.fragment.name] and [e.args] are read, and
    [e.blockNumber]. *)
Record ChainEvent : Type := mkChainEvent {
  ev_event : Event;
  ev_block : Z
}.

(** [e.fragment.name] *)
Definition ev_name (e : ChainEvent) : string :=
  match ev_event e with
  | Issued _ _ _ => "Issued"
  | Revoked _ _ _ => "Revoked"
  end.

(** [e.args.docHash] and [e.args.issuer]: both events name their first
    two arguments so. *)
Definition ev_docHash (e : ChainEvent) : Z :=
  match ev_event e with
  | Issued h _ _ => h
  | Revoked h _ _ => h
  end.

Definition ev_issuer (e : ChainEvent) : Z :=
  match ev_event e with
  | Issued _ who _ => who
  | Revoked _ who _ => who
  end.

(** A value of a decoded event. *)
Inductive EventArg : Type :=
| ArgBytes32 (h : Z)
| ArgAddress (a : Z)
| ArgUint64 (n : Z).

(** [e.args] by position: both events of the contract carry three
    values. *)
Definition ev_args (e : ChainEvent) : list EventArg :=
  match ev_event e with
  | Issued h who t => [ArgBytes32 h; ArgAddress who; ArgUint64 t]
  | Revoked h who t => [ArgBytes32 h; ArgAddress who; ArgUint64 t]
  end.

(** [Array.prototype.sort((a, b) => a.blockNumber - b.blockNumber)]:
    ascending by block, and stable, so events of one block keep the order
    they came in. *)
Fixpoint insert_by_block (x : ChainEvent) (l : list ChainEvent) : list ChainEvent :=
  match l with
  | [] => [x]
  | y :: l' =>
      if ev_block x <=? ev_block y then x :: y :: l'
      else y :: insert_by_block x l'
  end.

Fixpoint sort_by_block (l : list ChainEvent) : list ChainEvent :=
  match l with
  | [] => []
  | x :: l' => insert_by_block x (sort_by_block l')
  end.

(** One line of the earlier feed: [{ name, hash, issuer, block }]. *)
Record FeedLine : Type := mkFeedLine {
  line_name : string;
  line_hash : Z;
  line_issuer : Z;
  line_block : Z
}.

Definition feed_line (e : ChainEvent) : FeedLine :=
  mkFeedLine (ev_name e) (ev_docHash e) (ev_issuer e) (ev_block e).

(** The events the earlier [loadEvents] keeps:
    [[...issued, ...revoked].sort(...).slice(-20)]. *)
Definition kept_events_v1 (issued revoked : list ChainEvent) : list ChainEvent :=
  let sorted := sort_by_block (issued ++ revoked) in
  drop (length sorted - 20) sorted.

(** The earlier [loadEvents] (both earlier versions of [App.jsx]), from
    the results of the two [queryFilter] calls to the list handed to
    [setEvents]. *)
Definition loadEvents_v1 (issued revoked : list ChainEvent) : list FeedLine :=
  map feed_line (kept_events_v1 issued revoked).

(** What a read of the [ethers] library can throw. *)
Inductive Thrown : Type :=
| RangeError (message : string).

(** [args[i]] on a decoded result of the [ethers] library (version 6, which
    [App.jsx] imports; not part of the sources): the value at position
    [i], and a [RangeError] for a position past the last one. *)
Definition result_at (args : list EventArg) (i : nat) : Thrown + EventArg :=
  match args !! i with
  | Some v => inr v
  | None => inl (RangeError "out of result range")
  end.

(** One line of the current feed: [{ name, hash, issuer, cid, block }]
    with [cid: e.args[3]]. *)
Record FeedLineCid : Type := mkFeedLineCid {
  cid_line : FeedLine;
  cid_value : EventArg
}.

Definition feed_line_cid (e : ChainEvent) : Thrown + FeedLineCid :=
  match result_at (ev_args e) 3 with
  | inl err => inl err
  | inr cid => inr (mkFeedLineCid (feed_line e) cid)
  end.

(** [Array.prototype.map] with a callback that may throw: the first throw
    ends the whole call. *)
Fixpoint map_throwing {A B} (f : A -> Thrown + B) (l : list A) : Thrown + list B :=
  match l with
  | [] => inr []
  | x :: l' =>
      match f x with
      | inl err => inl err
      | inr y =>
          match map_throwing f l' with
          | inl err => inl err
          | inr ys => inr (y :: ys)
          end
      end
  end.

(** The current [loadEvents], on the feed it finds in the component's
    state and the results of the two [queryFilter] calls: the new feed and
    the status line.  Inside [try]:
    [[...issued, ...revoked].sort(...).reverse().slice(0, 20).map(...)],
    [setEvents(all)], [setStatus("Events loaded.")]; in [catch]:
    [setStatus("Error: " + (err.reason || err.message))]. *)
Definition loadEvents (events : list FeedLineCid) (issued revoked : list ChainEvent)
    : list FeedLineCid * string :=
  match map_throwing feed_line_cid
          (take 20 (reverse (sort_by_block (issued ++ revoked)))) with
  | inr all => (all, "Events loaded.")
  | inl (RangeError message) => (events, "Error: " +:+ message)
  end.

(** A digest function to run [sha256File] on: the first 32 bytes of the
    file, filled up with zero bytes. *)
Definition prefix_digest (file : list byte) : list byte :=
  take 32 (file ++ replicate 32 x00).

(** * Properties *)

(** ** The entry points in closed form *)

Lemma issue_eq docHash env st :
  issue docHash env st =
    if hasRole st ISSUER_ROLE (msg_sender env) then
      if issuedAt (recordOf st docHash) =? 0 then
        Done tt (mkState (roles st)
                   (<[docHash := mkRecord (uint64 (block_timestamp env)) false (msg_sender env)]>
                      (records st))
                   (log st ++ [mkEntry (length (log st))
                                 (Issued docHash (msg_sender env)
                                    (uint64 (block_timestamp env)))]))
      else Reverted AlreadyIssued
    else Reverted Unauthorized.
Proof.
  unfold issue, mbind, tx_bind, onlyRole.
  destruct (hasRole st ISSUER_ROLE (msg_sender env)); [|reflexivity].
  unfold load, require.
  destruct (issuedAt (recordOf st docHash) =? 0); reflexivity.
Qed.

Lemma revoke_eq docHash env st :
  revoke docHash env st =
    if hasRole st ISSUER_ROLE (msg_sender env) then
      if issuedAt (recordOf st docHash) =? 0 then Reverted NotIssued
      else
        Done tt (mkState (roles st)
                   (<[docHash := mkRecord (issuedAt (recordOf st docHash)) true
                                   (issuer (recordOf st docHash))]>
                      (records st))
                   (log st ++ [mkEntry (length (log st))
                                 (Revoked docHash (msg_sender env)
                                    (uint64 (block_timestamp env)))]))
    else Reverted Unauthorized.
Proof.
  unfold revoke, mbind, tx_bind, onlyRole.
  destruct (hasRole st ISSUER_ROLE (msg_sender env)); [|reflexivity].
  unfold load, require.
  destruct (issuedAt (recordOf st docHash) =? 0); reflexivity.
Qed.

Lemma verify_eq docHash env st :
  verify docHash env st =
    Done (negb (issuedAt (recordOf st docHash) =? 0),
          revoked (recordOf st docHash),
          issuedAt (recordOf st docHash),
          issuer (recordOf st docHash)) st.
Proof. reflexivity. Qed.

Lemma grantRole_eq role account env st :
  grantRole role account env st =
    if hasRole st DEFAULT_ADMIN_ROLE (msg_sender env) then
      if hasRole st role account then Done tt st
      else Done tt (mkState ({[ (role, account) ]} ∪ roles st) (records st) (log st))
    else Reverted Unauthorized.
Proof.
  unfold grantRole, mbind, tx_bind, onlyRole, _grantRole.
  destruct (hasRole st DEFAULT_ADMIN_ROLE (msg_sender env)); reflexivity.
Qed.

Lemma revokeRole_eq role account env st :
  revokeRole role account env st =
    if hasRole st DEFAULT_ADMIN_ROLE (msg_sender env) then
      if hasRole st role account
      then Done tt (mkState (roles st ∖ {[ (role, account) ]}) (records st) (log st))
      else Done tt st
    else Reverted Unauthorized.
Proof.
  unfold revokeRole, mbind, tx_bind, onlyRole, _revokeRole.
  destruct (hasRole st DEFAULT_ADMIN_ROLE (msg_sender env)); reflexivity.
Qed.

Lemma renounceRole_eq role account env st :
  renounceRole role account env st =
    if bool_decide (account = msg_sender env) then
      if hasRole st role account
      then Done tt (mkState (roles st ∖ {[ (role, account) ]}) (records st) (log st))
      else Done tt st
    else Reverted BadConfirmation.
Proof.
  unfold renounceRole, mbind, tx_bind, msgSender, require, _revokeRole.
  destruct (bool_decide (account = msg_sender env)); reflexivity.
Qed.

Lemma addIssuer_eq account env st :
  addIssuer account env st = grantRole ISSUER_ROLE account env st.
Proof. reflexivity. Qed.

Lemma removeIssuer_eq account env st :
  removeIssuer account env st = revokeRole ISSUER_ROLE account env st.
Proof. reflexivity. Qed.

(** Section 8's scenario: admin [A] issues [0xAA] at time [t0], revokes it,
    and tries to issue it again. *)
Example scenario_section8 :
  let A := 0xA11CE in
  let t0 := 1700000000 in
  let s0 := constructor A in
  let s1 := apply_tx s0 (mkTx (mkEnv A t0) (CallIssue 0xAA)) in
  let s2 := apply_tx s1 (mkTx (mkEnv A (t0 + 60)) (CallRevoke 0xAA)) in
  verify 0xAA (mkEnv 0 0) s1 = Done (true, false, t0, A) s1 /\
  verify 0xAA (mkEnv 0 0) s2 = Done (true, true, t0, A) s2 /\
  execute s2 (mkTx (mkEnv A (t0 + 120)) (CallIssue 0xAA)) = Reverted AlreadyIssued.
Proof.
  cbv zeta. rewrite !verify_eq.
  split; [f_equal; by vm_compute|]. split; [f_equal; by vm_compute|].
  by vm_compute.
Qed.

(** ** Reading the storage after a write *)

Lemma recordOf_insert_eq rs m l h r :
  recordOf (mkState rs (<[h := r]> m) l) h = r.
Proof. unfold recordOf; simpl. by rewrite lookup_insert_eq. Qed.

Lemma recordOf_insert_ne rs m l h h' r :
  h <> h' ->
  recordOf (mkState rs (<[h := r]> m) l) h' = recordOf (mkState rs m l) h'.
Proof. intros Hne. unfold recordOf; simpl. by rewrite lookup_insert_ne. Qed.

Lemma recordOf_fresh st h :
  records st !! h = None -> recordOf st h = zeroRecord.
Proof. intros Hnone. unfold recordOf. by rewrite Hnone. Qed.

Lemma hasRole_true st role account :
  hasRole st role account = true <-> (role, account) ∈ roles st.
Proof. unfold hasRole. apply bool_decide_eq_true. Qed.

Lemma hasRole_false st role account :
  hasRole st role account = false <-> (role, account) ∉ roles st.
Proof. unfold hasRole. apply bool_decide_eq_false. Qed.

Lemma constructor_eq admin :
  constructor admin
  = mkState ({[ (ISSUER_ROLE, admin) ]} ∪ ({[ (DEFAULT_ADMIN_ROLE, admin) ]} ∪ ∅)) ∅ [].
Proof.
  unfold constructor, mbind, tx_bind, _grantRole.
  assert (hasRole empty_state DEFAULT_ADMIN_ROLE admin = false) as ->
    by (apply hasRole_false; simpl; apply not_elem_of_empty).
  assert (hasRole (mkState ({[ (DEFAULT_ADMIN_ROLE, admin) ]} ∪ roles empty_state)
                     (records empty_state) (log empty_state))
            ISSUER_ROLE admin = false) as ->.
  { apply hasRole_false. simpl.
    rewrite elem_of_union, elem_of_singleton.
    intros [[=]|Hin]. by apply not_elem_of_empty in Hin. }
  reflexivity.
Qed.

Lemma constructor_roles admin :
  hasRole (constructor admin) DEFAULT_ADMIN_ROLE admin = true
  /\ hasRole (constructor admin) ISSUER_ROLE admin = true.
Proof.
  rewrite constructor_eq.
  split; apply hasRole_true; simpl;
    rewrite !elem_of_union, !elem_of_singleton; tauto.
Qed.

Lemma constructor_records admin : records (constructor admin) = ∅.
Proof. by rewrite constructor_eq. Qed.

Lemma constructor_log admin : log (constructor admin) = [].
Proof. by rewrite constructor_eq. Qed.

Lemma constructor_hasRole admin role account :
  hasRole (constructor admin) role account = true
  <-> account = admin /\ (role = DEFAULT_ADMIN_ROLE \/ role = ISSUER_ROLE).
Proof.
  rewrite hasRole_true, constructor_eq. simpl.
  rewrite !elem_of_union, !elem_of_singleton.
  split.
  - intros [[= -> ->]|[[= -> ->]|Hin]]; [tauto|tauto|].
    by apply not_elem_of_empty in Hin.
  - intros [-> [->| ->]]; tauto.
Qed.

(** ** Reverts are atomic *)

Lemma apply_tx_reverted st tx e :
  execute st tx = Reverted e -> apply_tx st tx = st.
Proof. intros Hex. unfold apply_tx. by rewrite Hex. Qed.

Lemma apply_tx_done st tx st' :
  execute st tx = Done tt st' -> apply_tx st tx = st'.
Proof. intros Hex. unfold apply_tx. by rewrite Hex. Qed.

Lemma succeeds_false_unchanged st tx :
  succeeds st tx = false -> apply_tx st tx = st.
Proof.
  unfold succeeds, apply_tx. destruct (execute st tx); [discriminate | done].
Qed.

(** ** What each kind of call does to the three parts of the state *)

(** Case analysis on every test the goal branches on. *)
Ltac case_ifs :=
  repeat match goal with |- context [if ?b then _ else _] => destruct b end.

Lemma role_calls_keep_records st tx :
  match tx_call tx with
  | CallIssue _ | CallRevoke _ => True
  | _ => records (apply_tx st tx) = records st /\ log (apply_tx st tx) = log st
  end.
Proof.
  destruct tx as [env c]. unfold apply_tx, execute. simpl.
  destruct c; simpl; try exact I;
    rewrite ?addIssuer_eq, ?removeIssuer_eq, ?grantRole_eq, ?revokeRole_eq,
      ?renounceRole_eq;
    case_ifs;
    done.
Qed.

Lemma credential_calls_keep_roles st tx :
  match tx_call tx with
  | CallIssue _ | CallRevoke _ => roles (apply_tx st tx) = roles st
  | _ => True
  end.
Proof.
  destruct tx as [env c]. unfold apply_tx, execute. simpl.
  destruct c; simpl; try exact I; rewrite ?issue_eq, ?revoke_eq;
    case_ifs;
    done.
Qed.

Lemma untouched_step st tx h :
  is_issue_of h tx = false ->
  records st !! h = None ->
  records (apply_tx st tx) !! h = None.
Proof.
  intros Hno Hnone.
  pose proof (role_calls_keep_records st tx) as Hrole.
  destruct tx as [env c]. unfold is_issue_of in Hno. simpl in *.
  destruct c as [h'|h'| | | | | ].
  3-7: destruct Hrole as [Hrec _]; by rewrite Hrec.
  - apply bool_decide_eq_false in Hno.
    unfold apply_tx, execute; simpl. rewrite issue_eq.
    case_ifs;
      simpl; try done.
    by rewrite lookup_insert_ne.
  - unfold apply_tx, execute; simpl. rewrite revoke_eq.
    destruct (hasRole st ISSUER_ROLE (msg_sender env)); [|done].
    destruct (decide (h' = h)) as [->|Hne].
    + rewrite (recordOf_fresh _ _ Hnone). simpl. done.
    + destruct (issuedAt (recordOf st h') =? 0); simpl; [done|].
      by rewrite lookup_insert_ne.
Qed.

Lemma untouched_run txs : forall st h,
  forallb (fun tx => negb (is_issue_of h tx)) txs = true ->
  records st !! h = None ->
  records (run st txs) !! h = None.
Proof.
  induction txs as [|tx txs IH]; intros st h Hall Hnone; simpl in *; [done|].
  apply andb_prop in Hall as [Htx Hrest].
  apply IH; [done|]. apply untouched_step; [|done].
  by apply negb_true_iff.
Qed.

(** ** [verify] *)

(** C2 (what the contract does).  On the credential [0xAA] that the admin
    [A] issued at time [1700000000], [verify] answers, to any caller at
    any time and without touching the state, the four values
    [(true, false, 1700000000, A)]: issued, not revoked, the issue time
    and the issuer.  The contract's [verify] has four return values and
    its storage no field for a storage reference, so the answer carries
    none. *)
Theorem verify_answers_four_values :
  let A := 0xA11CE in
  let st := apply_tx (constructor A) (mkTx (mkEnv A 1700000000) (CallIssue 0xAA)) in
  forall env : Env,
    verify 0xAA env st = Done (true, false, 1700000000, A) st.
Proof.
  cbv zeta. intros env. rewrite verify_eq. f_equal; by vm_compute.
Qed.

(** ** Revoking twice *)

(** C3 (as amended).  For every document hash whose record is already
    revoked, a further [revoke] by a caller holding the issuer role goes
    through: the record is unchanged and one more [Revoked] event is
    appended.  No call of [revoke], by anybody and in any state, fails
    with [AlreadyRevoked]. *)
Theorem revoke_again_succeeds (st : State) (docHash : Z) (env : Env) :
  issuedAt (recordOf st docHash) <> 0 ->
  revoked (recordOf st docHash) = true ->
  hasRole st ISSUER_ROLE (msg_sender env) = true ->
  (exists st',
      revoke docHash env st = Done tt st'
      /\ recordOf st' docHash = recordOf st docHash
      /\ roles st' = roles st
      /\ log st' = log st ++ [mkEntry (length (log st))
                                (Revoked docHash (msg_sender env)
                                   (uint64 (block_timestamp env)))])
  /\ (forall st0 h env0, revoke h env0 st0 <> Reverted AlreadyRevoked).
Proof.
  intros Hissued Hrev Hrole. split.
  - rewrite revoke_eq, Hrole.
    apply Z.eqb_neq in Hissued. rewrite Hissued.
    eexists. split; [reflexivity|]. split; [|done].
    rewrite recordOf_insert_eq.
    destruct (recordOf st docHash) as [t rv who]. simpl in *. by subst rv.
  - intros st0 h env0. rewrite revoke_eq.
    case_ifs; discriminate.
Qed.

Lemma revoke_again_succeeds_witness :
  let A := 0xA11CE in
  let s1 := apply_tx (constructor A) (mkTx (mkEnv A 1700000000) (CallIssue 0xAA)) in
  let s2 := apply_tx s1 (mkTx (mkEnv A 1700000060) (CallRevoke 0xAA)) in
  let env := mkEnv A 1700000120 in
  (exists st',
      revoke 0xAA env s2 = Done tt st'
      /\ recordOf st' 0xAA = recordOf s2 0xAA
      /\ roles st' = roles s2
      /\ log st' = log s2 ++ [mkEntry (length (log s2))
                                (Revoked 0xAA (msg_sender env)
                                   (uint64 (block_timestamp env)))])
  /\ (forall st0 h env0, revoke h env0 st0 <> Reverted AlreadyRevoked).
Proof.
  cbv zeta. apply revoke_again_succeeds.
  - vm_compute. discriminate.
  - vm_compute. reflexivity.
  - vm_compute. reflexivity.
Defined.

(** C3, the claim as written fails: revoking the revoked credential of
    section 8's scenario a second time goes through and appends a third
    event. *)
Lemma second_revoke_is_accepted :
  let A := 0xA11CE in
  let s1 := apply_tx (constructor A) (mkTx (mkEnv A 1700000000) (CallIssue 0xAA)) in
  let s2 := apply_tx s1 (mkTx (mkEnv A 1700000060) (CallRevoke 0xAA)) in
  let again := mkTx (mkEnv A 1700000120) (CallRevoke 0xAA) in
  revoked (recordOf s2 0xAA) = true
  /\ succeeds s2 again = true
  /\ execute s2 again <> Reverted AlreadyRevoked
  /\ length (log s2) = 2%nat
  /\ map entry_event (log (apply_tx s2 again))
     = [Issued 0xAA A 1700000000; Revoked 0xAA A 1700000060;
        Revoked 0xAA A 1700000120].
Proof.
  cbv zeta. repeat split; try (vm_compute; congruence).
Qed.

(** ** Issuing twice *)

(** C4 (as amended).  For every document hash that is already issued or
    revoked, a second [issue] fails for every caller, with [AlreadyIssued]
    when the caller holds the issuer role and with [Unauthorized] when it
    does not; the whole state, and so the record and the event log, is as
    before. *)
Theorem reissue_fails (st : State) (docHash : Z) (env : Env) :
  issuedAt (recordOf st docHash) <> 0 ->
  issue docHash env st
  = Reverted (if hasRole st ISSUER_ROLE (msg_sender env)
              then AlreadyIssued else Unauthorized)
  /\ apply_tx st (mkTx env (CallIssue docHash)) = st.
Proof.
  intros Hissued. apply Z.eqb_neq in Hissued.
  assert (issue docHash env st
          = Reverted (if hasRole st ISSUER_ROLE (msg_sender env)
                      then AlreadyIssued else Unauthorized)) as Heq.
  { rewrite issue_eq, Hissued. by destruct (hasRole _ _ _). }
  split; [exact Heq|]. eapply apply_tx_reverted. unfold execute; simpl. exact Heq.
Qed.

Lemma reissue_fails_witness :
  let A := 0xA11CE in
  let s1 := apply_tx (constructor A) (mkTx (mkEnv A 1700000000) (CallIssue 0xAA)) in
  let env := mkEnv A 1700000120 in
  issue 0xAA env s1
  = Reverted (if hasRole s1 ISSUER_ROLE (msg_sender env)
              then AlreadyIssued else Unauthorized)
  /\ apply_tx s1 (mkTx env (CallIssue 0xAA)) = s1.
Proof.
  cbv zeta. apply reissue_fails. vm_compute. discriminate.
Defined.

(** C4, the claim as written fails: a caller without the issuer role who
    issues an already issued hash is turned away by the role check, not
    with [AlreadyIssued]. *)
Lemma reissue_by_stranger_is_unauthorized :
  let A := 0xA11CE in
  let B := 0xB0B in
  let s1 := apply_tx (constructor A) (mkTx (mkEnv A 1700000000) (CallIssue 0xAA)) in
  issuedAt (recordOf s1 0xAA) = 1700000000
  /\ execute s1 (mkTx (mkEnv B 1700000120) (CallIssue 0xAA)) = Reverted Unauthorized
  /\ execute s1 (mkTx (mkEnv B 1700000120) (CallIssue 0xAA)) <> Reverted AlreadyIssued.
Proof.
  cbv zeta. repeat split; try (vm_compute; congruence).
Qed.

(** ** The record of a hash across one transaction *)

Lemma recordOf_ext st st' h :
  records st' = records st -> recordOf st' h = recordOf st h.
Proof. unfold recordOf. by intros ->. Qed.

Lemma issue_step_record st env h' h :
  recordOf (apply_tx st (mkTx env (CallIssue h'))) h =
    if bool_decide (h' = h) && hasRole st ISSUER_ROLE (msg_sender env)
       && (issuedAt (recordOf st h) =? 0)
    then mkRecord (uint64 (block_timestamp env)) false (msg_sender env)
    else recordOf st h.
Proof.
  unfold apply_tx, execute; simpl. rewrite issue_eq.
  destruct (decide (h' = h)) as [->|Hne].
  - rewrite bool_decide_eq_true_2 by done. simpl.
    destruct (hasRole st ISSUER_ROLE (msg_sender env)); simpl; [|done].
    destruct (issuedAt (recordOf st h) =? 0); [|done].
    apply recordOf_insert_eq.
  - rewrite bool_decide_eq_false_2 by done. simpl.
    destruct (hasRole st ISSUER_ROLE (msg_sender env)); [|done].
    destruct (issuedAt (recordOf st h') =? 0); [|done].
    rewrite recordOf_insert_ne by done. by destruct st.
Qed.

Lemma revoke_step_record st env h' h :
  recordOf (apply_tx st (mkTx env (CallRevoke h'))) h =
    if bool_decide (h' = h) && hasRole st ISSUER_ROLE (msg_sender env)
       && negb (issuedAt (recordOf st h) =? 0)
    then mkRecord (issuedAt (recordOf st h)) true (issuer (recordOf st h))
    else recordOf st h.
Proof.
  unfold apply_tx, execute; simpl. rewrite revoke_eq.
  destruct (decide (h' = h)) as [->|Hne].
  - rewrite bool_decide_eq_true_2 by done. simpl.
    destruct (hasRole st ISSUER_ROLE (msg_sender env)); simpl; [|done].
    destruct (issuedAt (recordOf st h) =? 0); simpl; [done|].
    apply recordOf_insert_eq.
  - rewrite bool_decide_eq_false_2 by done. simpl.
    destruct (hasRole st ISSUER_ROLE (msg_sender env)); [|done].
    destruct (issuedAt (recordOf st h') =? 0); [done|].
    rewrite recordOf_insert_ne by done. by destruct st.
Qed.

Lemma role_step_record st tx h :
  match tx_call tx with
  | CallIssue _ | CallRevoke _ => True
  | _ => recordOf (apply_tx st tx) h = recordOf st h
  end.
Proof.
  pose proof (role_calls_keep_records st tx) as Hkeep.
  destruct (tx_call tx); try exact I;
    destruct Hkeep as [Hrec _]; by apply recordOf_ext.
Qed.

(** ** The record invariant *)

Lemma record_invariant_constructor admin : record_invariant (constructor admin).
Proof.
  intros h _. rewrite recordOf_fresh; [reflexivity|].
  rewrite constructor_records. apply lookup_empty.
Qed.

Lemma record_invariant_step st tx :
  record_invariant st -> record_invariant (apply_tx st tx).
Proof.
  intros Hinv h. pose proof (role_step_record st tx h) as Hrole.
  destruct tx as [env c]; simpl in Hrole.
  destruct c as [h'|h'| | | | | ].
  3-7: rewrite Hrole; apply Hinv.
  - rewrite issue_step_record.
    destruct (_ && _ && _); [done | apply Hinv].
  - rewrite revoke_step_record.
    destruct (bool_decide (h' = h) && hasRole st ISSUER_ROLE (msg_sender env)
              && negb (issuedAt (recordOf st h) =? 0)) eqn:Hcond; [|apply Hinv].
    simpl. intros Hzero.
    apply andb_prop in Hcond as [_ Hnz]. apply negb_true_iff, Z.eqb_neq in Hnz.
    done.
Qed.

Lemma record_invariant_run txs : forall st,
  record_invariant st -> record_invariant (run st txs).
Proof.
  induction txs as [|tx txs IH]; intros st Hinv; simpl; [done|].
  apply IH. by apply record_invariant_step.
Qed.

Lemma issuedAt_stable_step st tx h :
  issuedAt (recordOf st h) <> 0 ->
  issuedAt (recordOf (apply_tx st tx) h) = issuedAt (recordOf st h).
Proof.
  intros Hnz. pose proof (role_step_record st tx h) as Hrole.
  destruct tx as [env c]; simpl in Hrole.
  destruct c as [h'|h'| | | | | ].
  3-7: by rewrite Hrole.
  - rewrite issue_step_record. apply Z.eqb_neq in Hnz. rewrite Hnz.
    by rewrite andb_false_r.
  - rewrite revoke_step_record. by destruct (_ && _ && _).
Qed.

Lemma revoked_stable_step st tx h :
  record_invariant st ->
  revoked (recordOf st h) = true ->
  revoked (recordOf (apply_tx st tx) h) = true.
Proof.
  intros Hinv Hrev. pose proof (role_step_record st tx h) as Hrole.
  destruct tx as [env c]; simpl in Hrole.
  destruct c as [h'|h'| | | | | ].
  3-7: by rewrite Hrole.
  - rewrite issue_step_record.
    destruct (issuedAt (recordOf st h) =? 0) eqn:Hz.
    + apply Z.eqb_eq, Hinv in Hz. congruence.
    + by rewrite andb_false_r.
  - rewrite revoke_step_record. by destruct (_ && _ && _).
Qed.

(** C5.  In every state reached from deployment by any sequence of issue,
    revoke, grant and revoke-role calls (failing ones included), every
    record with [issuedAt = 0] has [revoked = false]; from such a state no
    call changes an [issuedAt] that is not zero, and no call, nor any
    further sequence of calls, turns a [revoked] flag that is set back to
    false. *)
Theorem record_invariants_hold (admin : Z) (txs : list Transaction) :
  let st := run (constructor admin) txs in
  (forall h, issuedAt (recordOf st h) = 0 -> revoked (recordOf st h) = false)
  /\ (forall tx h,
        issuedAt (recordOf st h) <> 0 ->
        issuedAt (recordOf (apply_tx st tx) h) = issuedAt (recordOf st h))
  /\ (forall tx h,
        revoked (recordOf st h) = true ->
        revoked (recordOf (apply_tx st tx) h) = true)
  /\ (forall more h,
        (issuedAt (recordOf st h) <> 0 ->
         issuedAt (recordOf (run st more) h) = issuedAt (recordOf st h))
        /\ (revoked (recordOf st h) = true ->
            revoked (recordOf (run st more) h) = true)).
Proof.
  cbv zeta.
  assert (record_invariant (run (constructor admin) txs)) as Hinv.
  { apply record_invariant_run, record_invariant_constructor. }
  split; [exact Hinv|]. split; [intros tx h; apply issuedAt_stable_step|].
  split; [intros tx h; by apply revoked_stable_step|].
  generalize dependent (run (constructor admin) txs).
  intros st Hinv more. revert st Hinv.
  induction more as [|tx more IH]; intros st Hinv h; simpl; [done|].
  destruct (IH (apply_tx st tx) (record_invariant_step _ _ Hinv) h) as [IHt IHr].
  split.
  - intros Hnz. rewrite IHt; rewrite issuedAt_stable_step; done.
  - intros Hrev. apply IHr. by apply revoked_stable_step.
Qed.

(** ** Issue, then verify *)

Lemma uint64_small t : 0 <= t < 2 ^ 64 -> uint64 t = t.
Proof. intros Hrange. unfold uint64. by apply Z.mod_small. Qed.

(** C6 (as amended).  For every document hash in the unissued state and
    every caller holding the issuer role, [issue] at a time [t] whose low
    64 bits are not all zero goes through, and [verify] then yields
    [(true, false, t mod 2^64, caller)]; the third value is [t] itself
    whenever [t] fits in 64 bits. *)
Theorem issue_then_verify (st : State) (docHash : Z) (env : Env) :
  issuedAt (recordOf st docHash) = 0 ->
  hasRole st ISSUER_ROLE (msg_sender env) = true ->
  uint64 (block_timestamp env) <> 0 ->
  exists st',
    issue docHash env st = Done tt st'
    /\ (forall env',
          verify docHash env' st'
          = Done (true, false, uint64 (block_timestamp env), msg_sender env) st')
    /\ (0 <= block_timestamp env < 2 ^ 64 ->
        uint64 (block_timestamp env) = block_timestamp env).
Proof.
  intros Hfresh Hrole Htime.
  rewrite issue_eq, Hrole, Hfresh. simpl.
  eexists. split; [reflexivity|]. split; [|apply uint64_small].
  intros env'. rewrite verify_eq, recordOf_insert_eq. simpl.
  apply Z.eqb_neq in Htime. by rewrite Htime.
Qed.

Lemma issue_then_verify_witness :
  let A := 0xA11CE in
  let env := mkEnv A 1700000000 in
  exists st',
    issue 0xAA env (constructor A) = Done tt st'
    /\ (forall env',
          verify 0xAA env' st'
          = Done (true, false, uint64 (block_timestamp env), msg_sender env) st')
    /\ (0 <= block_timestamp env < 2 ^ 64 ->
        uint64 (block_timestamp env) = block_timestamp env).
Proof.
  cbv zeta. apply issue_then_verify.
  - reflexivity.
  - vm_compute. reflexivity.
  - vm_compute. discriminate.
Defined.

(** C6, the claim as written fails: an issuance applied at time [2^64]
    goes through, yet [verify] answers [(false, false, 0, A)]; applied at
    time [2^64 + 5] it reports the time [5]. *)
Lemma issue_at_wrapped_time_misreports :
  let A := 0xA11CE in
  let s1 := apply_tx (constructor A) (mkTx (mkEnv A (2 ^ 64)) (CallIssue 0xAA)) in
  let s2 := apply_tx (constructor A) (mkTx (mkEnv A (2 ^ 64 + 5)) (CallIssue 0xAA)) in
  succeeds (constructor A) (mkTx (mkEnv A (2 ^ 64)) (CallIssue 0xAA)) = true
  /\ verify 0xAA (mkEnv 0 0) s1 = Done (false, false, 0, A) s1
  /\ verify 0xAA (mkEnv 0 0) s1 <> Done (true, false, 2 ^ 64, A) s1
  /\ succeeds (constructor A) (mkTx (mkEnv A (2 ^ 64 + 5)) (CallIssue 0xAA)) = true
  /\ verify 0xAA (mkEnv 0 0) s2 = Done (true, false, 5, A) s2
  /\ verify 0xAA (mkEnv 0 0) s2 <> Done (true, false, 2 ^ 64 + 5, A) s2.
Proof.
  cbv zeta. repeat split; try (vm_compute; congruence).
Qed.

(** ** Revoke changes one flag *)

(** C7.  A [revoke] of hash [h] that goes through sets the [revoked] flag
    of [h]'s record and changes nothing else in the storage: [issuedAt]
    and [issuer] of [h] are as before, the slot of every other hash is as
    before, and so is the role table.  When the state it ran in came from
    a successful [issue] of [h], [verify] yields [(true, true, t, issuer)]
    with the [t] and [issuer] it yielded right after the issuance. *)
Theorem revoke_changes_only_the_flag (st : State) (h : Z) (env : Env) (st' : State) :
  revoke h env st = Done tt st' ->
  revoked (recordOf st' h) = true
  /\ issuedAt (recordOf st' h) = issuedAt (recordOf st h)
  /\ issuer (recordOf st' h) = issuer (recordOf st h)
  /\ (forall h', h' <> h -> records st' !! h' = records st !! h')
  /\ roles st' = roles st
  /\ (forall st0 env0 env',
        issue h env0 st0 = Done tt st ->
        verify h env' st
        = Done (true, false, uint64 (block_timestamp env0), msg_sender env0) st
        /\ verify h env' st'
           = Done (true, true, uint64 (block_timestamp env0), msg_sender env0) st').
Proof.
  intros Hrev. rewrite revoke_eq in Hrev.
  destruct (hasRole st ISSUER_ROLE (msg_sender env)); [|discriminate].
  destruct (issuedAt (recordOf st h) =? 0) eqn:Hnz; [discriminate|].
  injection Hrev as <-.
  rewrite recordOf_insert_eq. simpl.
  do 3 (split; [reflexivity|]).
  split; [intros h' Hne; by rewrite lookup_insert_ne|].
  split; [reflexivity|].
  intros st0 env0 env' Hissue. rewrite issue_eq in Hissue.
  destruct (hasRole st0 ISSUER_ROLE (msg_sender env0)); [|discriminate].
  destruct (issuedAt (recordOf st0 h) =? 0); [|discriminate].
  injection Hissue as <-.
  rewrite !verify_eq, !recordOf_insert_eq in *. simpl in *.
  by rewrite Hnz.
Qed.

Lemma revoke_changes_only_the_flag_witness :
  let A := 0xA11CE in
  let st := apply_tx (constructor A) (mkTx (mkEnv A 1700000000) (CallIssue 0xAA)) in
  let st' := apply_tx st (mkTx (mkEnv A 1700000060) (CallRevoke 0xAA)) in
  revoked (recordOf st' 0xAA) = true
  /\ issuedAt (recordOf st' 0xAA) = issuedAt (recordOf st 0xAA)
  /\ issuer (recordOf st' 0xAA) = issuer (recordOf st 0xAA)
  /\ (forall h', h' <> 0xAA -> records st' !! h' = records st !! h')
  /\ roles st' = roles st
  /\ (forall env',
        verify 0xAA env' st = Done (true, false, 1700000000, A) st
        /\ verify 0xAA env' st' = Done (true, true, 1700000000, A) st').
Proof.
  cbv zeta.
  destruct (revoke_changes_only_the_flag
              (apply_tx (constructor 0xA11CE)
                 (mkTx (mkEnv 0xA11CE 1700000000) (CallIssue 0xAA)))
              0xAA (mkEnv 0xA11CE 1700000060)
              (apply_tx
                 (apply_tx (constructor 0xA11CE)
                    (mkTx (mkEnv 0xA11CE 1700000000) (CallIssue 0xAA)))
                 (mkTx (mkEnv 0xA11CE 1700000060) (CallRevoke 0xAA))))
    as (Hflag & Htime & Hwho & Hothers & Hroles & Hseq).
  { vm_compute. reflexivity. }
  do 5 (split; [assumption|]).
  intros env'.
  apply (Hseq (constructor 0xA11CE) (mkEnv 0xA11CE 1700000000) env').
  vm_compute. reflexivity.
Defined.

(** ** Losing the issuer role *)

Lemma removeIssuer_removes st env X st1 :
  removeIssuer X env st = Done tt st1 ->
  hasRole st DEFAULT_ADMIN_ROLE (msg_sender env) = true
  /\ hasRole st1 ISSUER_ROLE X = false.
Proof.
  rewrite removeIssuer_eq, revokeRole_eq.
  destruct (hasRole st DEFAULT_ADMIN_ROLE (msg_sender env)); [|discriminate].
  destruct (hasRole st ISSUER_ROLE X) eqn:Hhad; intros [= <-]; split; try done.
  apply hasRole_false. simpl.
  rewrite elem_of_difference, elem_of_singleton. tauto.
Qed.

Lemma not_issuer_step st tx X :
  grants_issuer X tx = false ->
  hasRole st ISSUER_ROLE X = false ->
  hasRole (apply_tx st tx) ISSUER_ROLE X = false.
Proof.
  intros Hno Hnot. pose proof (credential_calls_keep_roles st tx) as Hkeep.
  destruct tx as [env c]. unfold grants_issuer in Hno. simpl in *.
  apply hasRole_false in Hnot. apply hasRole_false.
  destruct c as [h|h|a|a|r a|r a|r a].
  1-2: by rewrite Hkeep.
  all: unfold apply_tx, execute; simpl;
    rewrite ?addIssuer_eq, ?removeIssuer_eq, ?grantRole_eq, ?revokeRole_eq,
      ?renounceRole_eq;
    case_ifs;
    simpl; try done.
  - apply bool_decide_eq_false in Hno.
    rewrite elem_of_union, elem_of_singleton. intros [[= ->]|Hin]; done.
  - rewrite elem_of_difference. tauto.
  - apply bool_decide_eq_false in Hno.
    rewrite elem_of_union, elem_of_singleton. intros [Heq|Hin]; done.
  - rewrite elem_of_difference. tauto.
  - rewrite elem_of_difference. tauto.
Qed.

Lemma not_issuer_run txs : forall st X,
  forallb (fun tx => negb (grants_issuer X tx)) txs = true ->
  hasRole st ISSUER_ROLE X = false ->
  hasRole (run st txs) ISSUER_ROLE X = false.
Proof.
  induction txs as [|tx txs IH]; intros st X Hall Hnot; simpl in *; [done|].
  apply andb_prop in Hall as [Htx Hrest].
  apply IH; [done|]. apply not_issuer_step; [|done].
  by apply negb_true_iff.
Qed.

(** C8.  Once an admin's [removeIssuer(X)] has gone through, every
    [issue] and every [revoke] that [X] sends fails with [Unauthorized]
    and leaves the state as it was; this stays so after any further calls,
    by anybody, for as long as none of them hands the issuer role to [X]
    again.  A [revoke] of a hash in the unissued state sent by a caller
    that passes the role check fails with [NotIssued], again without any
    change. *)
Theorem removed_issuer_is_locked_out (st : State) (admin_env : Env) (X : Z) (st1 : State) :
  removeIssuer X admin_env st = Done tt st1 ->
  (forall env h,
      msg_sender env = X ->
      issue h env st1 = Reverted Unauthorized
      /\ revoke h env st1 = Reverted Unauthorized
      /\ apply_tx st1 (mkTx env (CallIssue h)) = st1
      /\ apply_tx st1 (mkTx env (CallRevoke h)) = st1)
  /\ (forall txs env h,
        forallb (fun tx => negb (grants_issuer X tx)) txs = true ->
        msg_sender env = X ->
        issue h env (run st1 txs) = Reverted Unauthorized
        /\ revoke h env (run st1 txs) = Reverted Unauthorized
        /\ apply_tx (run st1 txs) (mkTx env (CallIssue h)) = run st1 txs
        /\ apply_tx (run st1 txs) (mkTx env (CallRevoke h)) = run st1 txs)
  /\ (forall st' env h,
        hasRole st' ISSUER_ROLE (msg_sender env) = true ->
        issuedAt (recordOf st' h) = 0 ->
        revoke h env st' = Reverted NotIssued
        /\ apply_tx st' (mkTx env (CallRevoke h)) = st').
Proof.
  intros Hremoved. apply removeIssuer_removes in Hremoved as [_ Hgone].
  assert (forall txs env h,
             forallb (fun tx => negb (grants_issuer X tx)) txs = true ->
             msg_sender env = X ->
             issue h env (run st1 txs) = Reverted Unauthorized
             /\ revoke h env (run st1 txs) = Reverted Unauthorized
             /\ apply_tx (run st1 txs) (mkTx env (CallIssue h)) = run st1 txs
             /\ apply_tx (run st1 txs) (mkTx env (CallRevoke h)) = run st1 txs)
    as Hlater.
  { intros txs env h Hall Hsender.
    pose proof (not_issuer_run txs st1 X Hall Hgone) as Hnot.
    rewrite <- Hsender in Hnot.
    assert (issue h env (run st1 txs) = Reverted Unauthorized) as Hi
      by (by rewrite issue_eq, Hnot).
    assert (revoke h env (run st1 txs) = Reverted Unauthorized) as Hr
      by (by rewrite revoke_eq, Hnot).
    do 2 (split; [done|]). split.
    - eapply apply_tx_reverted. unfold execute; simpl. exact Hi.
    - eapply apply_tx_reverted. unfold execute; simpl. exact Hr. }
  split; [intros env h; exact (Hlater [] env h eq_refl)|].
  split; [exact Hlater|].
  intros st' env h Hrole Hfresh.
  assert (revoke h env st' = Reverted NotIssued) as Hr
    by (by rewrite revoke_eq, Hrole, Hfresh).
  split; [done|].
  eapply apply_tx_reverted. unfold execute; simpl. exact Hr.
Qed.

Lemma removed_issuer_is_locked_out_witness :
  let A := 0xA11CE in
  let X := 0xB0B in
  let s0 := run (constructor A) [mkTx (mkEnv A 1700000000) (CallAddIssuer X);
                                 mkTx (mkEnv X 1700000010) (CallIssue 0xAA)] in
  let s1 := apply_tx s0 (mkTx (mkEnv A 1700000020) (CallRemoveIssuer X)) in
  hasRole s0 ISSUER_ROLE X = true
  /\ (forall env h,
        msg_sender env = X ->
        issue h env s1 = Reverted Unauthorized
        /\ revoke h env s1 = Reverted Unauthorized
        /\ apply_tx s1 (mkTx env (CallIssue h)) = s1
        /\ apply_tx s1 (mkTx env (CallRevoke h)) = s1)
  /\ (forall txs env h,
        forallb (fun tx => negb (grants_issuer X tx)) txs = true ->
        msg_sender env = X ->
        issue h env (run s1 txs) = Reverted Unauthorized
        /\ revoke h env (run s1 txs) = Reverted Unauthorized
        /\ apply_tx (run s1 txs) (mkTx env (CallIssue h)) = run s1 txs
        /\ apply_tx (run s1 txs) (mkTx env (CallRevoke h)) = run s1 txs)
  /\ (forall st' env h,
        hasRole st' ISSUER_ROLE (msg_sender env) = true ->
        issuedAt (recordOf st' h) = 0 ->
        revoke h env st' = Reverted NotIssued
        /\ apply_tx st' (mkTx env (CallRevoke h)) = st').
Proof.
  cbv zeta. split; [by vm_compute|].
  apply (removed_issuer_is_locked_out
           (run (constructor 0xA11CE)
                [mkTx (mkEnv 0xA11CE 1700000000) (CallAddIssuer 0xB0B);
                 mkTx (mkEnv 0xB0B 1700000010) (CallIssue 0xAA)])
           (mkEnv 0xA11CE 1700000020) 0xB0B).
  vm_compute. reflexivity.
Defined.

(** ** Timestamps that wrap *)

(** C10.  [issue] stores the current timestamp reduced modulo [2^64].  So
    when a caller holding the issuer role issues an unissued hash at a
    time [t] with [t mod 2^64 = 0], the call goes through and appends its
    event, but the record keeps [issuedAt = 0]: [verify] reports the hash
    as not issued, and a later [issue] of the same hash by any holder of
    the issuer role goes through again, replacing the issuer and appending
    a second [Issued] event for the hash. *)
Theorem issue_truncates_timestamp (st : State) (docHash : Z) (env : Env) :
  hasRole st ISSUER_ROLE (msg_sender env) = true ->
  issuedAt (recordOf st docHash) = 0 ->
  exists st',
    issue docHash env st = Done tt st'
    /\ issuedAt (recordOf st' docHash) = block_timestamp env mod 2 ^ 64
    /\ (block_timestamp env mod 2 ^ 64 = 0 ->
        issuedAt (recordOf st' docHash) = 0
        /\ (forall env',
              verify docHash env' st' = Done (false, false, 0, msg_sender env) st')
        /\ (forall env2,
              hasRole st' ISSUER_ROLE (msg_sender env2) = true ->
              exists st'',
                issue docHash env2 st' = Done tt st''
                /\ issuer (recordOf st'' docHash) = msg_sender env2
                /\ map entry_event (log st'')
                   = map entry_event (log st)
                     ++ [Issued docHash (msg_sender env) 0;
                         Issued docHash (msg_sender env2)
                           (uint64 (block_timestamp env2))])).
Proof.
  intros Hrole Hfresh. rewrite issue_eq, Hrole, Hfresh. simpl.
  eexists. split; [reflexivity|].
  rewrite recordOf_insert_eq. simpl. split; [reflexivity|].
  intros Hwrap. unfold uint64. rewrite Hwrap.
  split; [reflexivity|]. split.
  - intros env'. by rewrite verify_eq, recordOf_insert_eq.
  - intros env2 Hrole2. rewrite issue_eq, Hrole2, recordOf_insert_eq. simpl.
    eexists. split; [reflexivity|].
    rewrite recordOf_insert_eq. simpl. split; [reflexivity|].
    rewrite !map_app. simpl. by rewrite <- app_assoc.
Qed.

Lemma issue_truncates_timestamp_witness :
  let A := 0xA11CE in
  let env := mkEnv A (2 ^ 64) in
  block_timestamp env mod 2 ^ 64 = 0
  /\ exists st',
      issue 0xAA env (constructor A) = Done tt st'
      /\ issuedAt (recordOf st' 0xAA) = block_timestamp env mod 2 ^ 64
      /\ (block_timestamp env mod 2 ^ 64 = 0 ->
          issuedAt (recordOf st' 0xAA) = 0
          /\ (forall env',
                verify 0xAA env' st' = Done (false, false, 0, msg_sender env) st')
          /\ (forall env2,
                hasRole st' ISSUER_ROLE (msg_sender env2) = true ->
                exists st'',
                  issue 0xAA env2 st' = Done tt st''
                  /\ issuer (recordOf st'' 0xAA) = msg_sender env2
                  /\ map entry_event (log st'')
                     = map entry_event (log (constructor A))
                       ++ [Issued 0xAA (msg_sender env) 0;
                           Issued 0xAA (msg_sender env2)
                             (uint64 (block_timestamp env2))])).
Proof.
  cbv zeta. split; [reflexivity|].
  apply issue_truncates_timestamp.
  - vm_compute. reflexivity.
  - reflexivity.
Defined.

(** ** The event log *)

Lemma log_step st tx :
  log (apply_tx st tx) =
    log st ++
      (if succeeds st tx then
         match event_of tx with
         | Some e => [mkEntry (length (log st)) e]
         | None => []
         end
       else []).
Proof.
  destruct tx as [env c]. unfold apply_tx, succeeds, execute, event_of. simpl.
  destruct c; simpl;
    rewrite ?issue_eq, ?revoke_eq, ?addIssuer_eq, ?removeIssuer_eq,
      ?grantRole_eq, ?revokeRole_eq, ?renounceRole_eq;
    case_ifs;
    simpl; by rewrite ?app_nil_r.
Qed.

Lemma well_numbered_snoc l e :
  well_numbered l -> well_numbered (l ++ [mkEntry (length l) e]).
Proof.
  unfold well_numbered. intros Hl.
  rewrite map_app, length_app, Hl. simpl.
  rewrite Nat.add_1_r, seq_S. reflexivity.
Qed.

Lemma well_numbered_step st tx :
  well_numbered (log st) -> well_numbered (log (apply_tx st tx)).
Proof.
  intros Hl. rewrite log_step.
  destruct (succeeds st tx); [|by rewrite app_nil_r].
  destruct (event_of tx); [|by rewrite app_nil_r].
  by apply well_numbered_snoc.
Qed.

Lemma well_numbered_run txs : forall st,
  well_numbered (log st) -> well_numbered (log (run st txs)).
Proof.
  induction txs as [|tx txs IH]; intros st Hl; simpl; [done|].
  by apply IH, well_numbered_step.
Qed.

Lemma events_run txs : forall st,
  map entry_event (log (run st txs))
  = map entry_event (log st) ++ omap event_of (successes st txs).
Proof.
  induction txs as [|tx txs IH]; intros st; simpl; [by rewrite app_nil_r|].
  rewrite IH, log_step, map_app, <- app_assoc. f_equal.
  destruct (succeeds st tx); simpl; [|done].
  destruct (event_of tx); done.
Qed.

Lemma length_omap_event_of txs :
  length (omap event_of txs) = length (List.filter is_credential_call txs).
Proof.
  induction txs as [|[env c] txs IH]; [done|].
  change (omap event_of (mkTx env c :: txs))
    with (match event_of (mkTx env c) with
          | Some e => e :: omap event_of txs
          | None => omap event_of txs
          end).
  destruct c; simpl; by rewrite IH.
Qed.

Lemma well_numbered_lookup l i e :
  well_numbered l -> l !! i = Some e -> entry_seq e = i.
Proof.
  unfold well_numbered. intros Hl Hi.
  assert (map entry_seq l !! i = Some (entry_seq e)) as Hm
    by (by rewrite list_lookup_fmap, Hi).
  rewrite Hl in Hm. apply lookup_seq in Hm as [-> _]. reflexivity.
Qed.

(** C9 (as amended).  After any sequence of calls from deployment, the
    event log holds exactly one entry per issue or revoke call that went
    through: they are the events of those calls in the order the calls
    were applied, the entry at position [i] carries sequence number [i],
    so the numbers increase strictly along the log, and a call that fails
    appends nothing (it changes nothing at all).  Calls that change the
    role table go through without writing an entry; in a history of issue
    and revoke calls alone the log has one entry per call that went
    through. *)
Theorem event_log_matches_successful_calls (admin : Z) (txs : list Transaction) :
  let st := run (constructor admin) txs in
  let done := successes (constructor admin) txs in
  length (log st) = length (List.filter is_credential_call done)
  /\ map entry_event (log st) = omap event_of done
  /\ (forallb is_credential_call txs = true -> length (log st) = length done)
  /\ (forall i e, log st !! i = Some e -> entry_seq e = i)
  /\ (forall i j e1 e2,
        log st !! i = Some e1 -> log st !! j = Some e2 ->
        (i < j)%nat -> (entry_seq e1 < entry_seq e2)%nat)
  /\ (forall st' tx, succeeds st' tx = false -> apply_tx st' tx = st').
Proof.
  cbv zeta.
  pose proof (events_run txs (constructor admin)) as Hev.
  rewrite constructor_log in Hev. simpl in Hev.
  assert (well_numbered (log (run (constructor admin) txs))) as Hnum
    by (apply well_numbered_run; by rewrite constructor_log).
  assert (length (log (run (constructor admin) txs))
          = length (List.filter is_credential_call
                      (successes (constructor admin) txs))) as Hlen.
  { rewrite <- length_omap_event_of, <- Hev. by rewrite length_map. }
  split; [exact Hlen|]. split; [exact Hev|]. split.
  - intros Hall. rewrite Hlen. f_equal.
    generalize (constructor admin). clear -Hall.
    induction txs as [|tx txs IH]; intros st; simpl in *; [done|].
    apply andb_prop in Hall as [Htx Hrest].
    destruct (succeeds st tx); simpl; rewrite ?Htx, IH; done.
  - split; [intros i e; by apply well_numbered_lookup|]. split.
    + intros i j e1 e2 Hi Hj Hlt.
      by rewrite (well_numbered_lookup _ _ _ Hnum Hi),
                 (well_numbered_lookup _ _ _ Hnum Hj).
    + apply succeeds_false_unchanged.
Qed.

(** C9, the claim as written fails: granting the issuer role is a call
    that goes through and changes the state, and removing it from an
    account that does not hold it goes through as well, yet the log of
    [Issued] and [Revoked] events stays empty. *)
Lemma role_calls_leave_no_entry :
  let A := 0xA11CE in
  let B := 0xB0B in
  let grant := mkTx (mkEnv A 1700000000) (CallAddIssuer B) in
  let remove := mkTx (mkEnv A 1700000060) (CallRemoveIssuer 0xC0C) in
  let st := run (constructor A) [grant; remove] in
  hasRole (constructor A) ISSUER_ROLE B = false
  /\ hasRole st ISSUER_ROLE B = true
  /\ successes (constructor A) [grant; remove] = [grant; remove]
  /\ log st = [].
Proof.
  cbv zeta. repeat split; by vm_compute.
Qed.

(** ** Who can issue *)

(** C1 (what the contract does).  The contract has no entry point that
    takes a signed payload: of the functions it declares or inherits, only
    [issue] turns an unissued hash into an issued one.  Whenever a
    transaction does so for a hash [h], the call is [issue(h)], its sender
    holds the issuer role, and the issuer recorded is that sender; nothing
    is recovered from a signature.  So when the admin [A] has signed a
    payload for [0xAA] and an account [R] without the role submits the
    issuance, the call reverts with [Unauthorized] and [0xAA] stays
    unissued. *)
Theorem issuance_is_by_the_sender_only :
  (forall (st : State) (tx : Transaction) (h : Z),
      issuedAt (recordOf st h) = 0 ->
      issuedAt (recordOf (apply_tx st tx) h) <> 0 ->
      tx_call tx = CallIssue h
      /\ hasRole st ISSUER_ROLE (msg_sender (tx_env tx)) = true
      /\ issuer (recordOf (apply_tx st tx) h) = msg_sender (tx_env tx))
  /\ (let A := 0xA11CE in
      let R := 0xB0B in
      forall t : Z,
        execute (constructor A) (mkTx (mkEnv R t) (CallIssue 0xAA))
        = Reverted Unauthorized
        /\ recordOf (apply_tx (constructor A) (mkTx (mkEnv R t) (CallIssue 0xAA))) 0xAA
           = zeroRecord).
Proof.
  split.
  - intros st tx h Hzero Hset.
    pose proof (role_step_record st tx h) as Hrole.
    destruct tx as [env c]. simpl in *.
    destruct c as [h'|h'| | | | | ].
    3-7: by rewrite Hrole in Hset.
    + rewrite issue_step_record in Hset |- *.
      destruct (decide (h' = h)) as [->|Hne].
      * rewrite bool_decide_eq_true_2 in Hset |- * by done. simpl in *.
        destruct (hasRole st ISSUER_ROLE (msg_sender env)); simpl in *; [|done].
        destruct (issuedAt (recordOf st h) =? 0); done.
      * rewrite bool_decide_eq_false_2 in Hset by done. simpl in Hset. done.
    + rewrite revoke_step_record in Hset.
      apply Z.eqb_eq in Hzero. rewrite Hzero, andb_false_r in Hset.
      apply Z.eqb_eq in Hzero. done.
  - cbv zeta. intros t.
    assert (execute (constructor 0xA11CE) (mkTx (mkEnv 0xB0B t) (CallIssue 0xAA))
            = Reverted Unauthorized) as Hex.
    { unfold execute; simpl. rewrite issue_eq. simpl.
      assert (hasRole (constructor 0xA11CE) ISSUER_ROLE 0xB0B = false) as ->; [|done].
      destruct (hasRole (constructor 0xA11CE) ISSUER_ROLE 0xB0B) eqn:Hhas; [|done].
      apply constructor_hasRole in Hhas as [[=] _]. }
    split; [exact Hex|].
    rewrite (apply_tx_reverted _ _ _ Hex).
    apply recordOf_fresh. rewrite constructor_records. apply lookup_empty.
Qed.

(** * Further properties of the contract *)

(** ** Deployment *)

(** X1.  Right after deployment the deployer's [admin] is the only
    account that holds a role, it holds exactly the admin role and the
    issuer role, and there is no record and no event yet. *)
Theorem constructor_sole_role_holder (admin : Z) :
  (forall role account,
      hasRole (constructor admin) role account = true
      <-> account = admin /\ (role = DEFAULT_ADMIN_ROLE \/ role = ISSUER_ROLE))
  /\ (forall h, recordOf (constructor admin) h = zeroRecord)
  /\ log (constructor admin) = [].
Proof.
  split; [|split].
  - intros role account. apply constructor_hasRole.
  - intros h. apply recordOf_fresh. rewrite constructor_records. apply lookup_empty.
  - apply constructor_log.
Qed.

(** ** Who may change what *)

(** X2.  An account that holds no role at all can change nothing:
    whichever state-changing function it calls, declared by the contract
    or inherited, with whatever arguments, the state is as before.  Every
    call but [renounceRole] reverts with [Unauthorized]; [renounceRole]
    reverts with [BadConfirmation] unless the caller names itself, and then
    finds nothing to remove. *)
Theorem roleless_caller_changes_nothing (st : State) (tx : Transaction) :
  (forall role, hasRole st role (msg_sender (tx_env tx)) = false) ->
  apply_tx st tx = st
  /\ execute st tx =
       match tx_call tx with
       | CallRenounceRole _ account =>
           if bool_decide (account = msg_sender (tx_env tx)) then Done tt st
           else Reverted BadConfirmation
       | _ => Reverted Unauthorized
       end.
Proof.
  intros Hnone.
  assert (execute st tx =
            match tx_call tx with
            | CallRenounceRole _ account =>
                if bool_decide (account = msg_sender (tx_env tx)) then Done tt st
                else Reverted BadConfirmation
            | _ => Reverted Unauthorized
            end) as Hex.
  { destruct tx as [env c]. unfold execute. simpl in *.
    destruct c as [h|h|a|a|r a|r a|r a]; simpl;
      rewrite ?issue_eq, ?revoke_eq, ?addIssuer_eq, ?removeIssuer_eq,
        ?grantRole_eq, ?revokeRole_eq, ?renounceRole_eq, ?Hnone; try reflexivity.
    destruct (bool_decide (a = msg_sender env)) eqn:Hself; [|reflexivity].
    apply bool_decide_eq_true in Hself as ->. by rewrite Hnone. }
  split; [|exact Hex].
  unfold apply_tx. rewrite Hex.
  destruct (tx_call tx); try reflexivity.
  destruct (bool_decide _); reflexivity.
Qed.

Lemma roleless_caller_changes_nothing_witness :
  let A := 0xA11CE in
  let B := 0xB0B in
  let st := apply_tx (constructor A) (mkTx (mkEnv A 1700000000) (CallIssue 0xAA)) in
  let tx := mkTx (mkEnv B 1700000060) (CallRenounceRole ISSUER_ROLE B) in
  (forall role, hasRole st role B = false)
  /\ apply_tx st tx = st
  /\ execute st tx = Done tt st.
Proof.
  cbv zeta.
  assert (forall role,
             hasRole (apply_tx (constructor 0xA11CE)
                        (mkTx (mkEnv 0xA11CE 1700000000) (CallIssue 0xAA)))
               role 0xB0B = false) as Hnone.
  { intros role.
    pose proof (credential_calls_keep_roles (constructor 0xA11CE)
                  (mkTx (mkEnv 0xA11CE 1700000000) (CallIssue 0xAA))) as Hkeep.
    simpl in Hkeep. unfold hasRole at 1. rewrite Hkeep.
    destruct (hasRole (constructor 0xA11CE) role 0xB0B) eqn:Hhas; [|exact Hhas].
    apply constructor_hasRole in Hhas as [[=] _]. }
  split; [exact Hnone|].
  exact (roleless_caller_changes_nothing
           (apply_tx (constructor 0xA11CE)
              (mkTx (mkEnv 0xA11CE 1700000000) (CallIssue 0xAA)))
           (mkTx (mkEnv 0xB0B 1700000060) (CallRenounceRole ISSUER_ROLE 0xB0B))
           Hnone).
Defined.

(** X3.  A call of [issue] or [revoke] never changes the role table.  A
    call by an account without the admin role, whatever it calls, hands no
    role to anybody and takes none from any other account: the one thing
    it can do to the role table is give up a role of its own, through the
    inherited [renounceRole], as an issuer who is no admin does in the
    last part. *)
Theorem roles_change_only_by_admins_or_self :
  (forall (st : State) (tx : Transaction),
      is_credential_call tx = true -> roles (apply_tx st tx) = roles st)
  /\ (forall (st : State) (tx : Transaction),
        hasRole st DEFAULT_ADMIN_ROLE (msg_sender (tx_env tx)) = false ->
        forall role account,
          (hasRole (apply_tx st tx) role account = true ->
           hasRole st role account = true)
          /\ (account <> msg_sender (tx_env tx) ->
              hasRole (apply_tx st tx) role account = hasRole st role account)
          /\ (roles (apply_tx st tx) <> roles st ->
              exists r, tx_call tx = CallRenounceRole r (msg_sender (tx_env tx))))
  /\ (forall (st : State) (env : Env),
        hasRole st ISSUER_ROLE (msg_sender env) = true ->
        hasRole (apply_tx st (mkTx env (CallRenounceRole ISSUER_ROLE (msg_sender env))))
          ISSUER_ROLE (msg_sender env) = false).
Proof.
  split; [|split].
  - intros st tx Hcall.
    pose proof (credential_calls_keep_roles st tx) as Hkeep.
    unfold is_credential_call in Hcall.
    destruct (tx_call tx); try discriminate; exact Hkeep.
  - intros st tx Hnot role account.
    pose proof (credential_calls_keep_roles st tx) as Hkeep.
    destruct tx as [env c]. simpl in *.
    destruct c as [h|h|a|a|r a|r a|r a].
    1-2: unfold hasRole; rewrite Hkeep; by repeat split.
    1-4: unfold apply_tx, execute; simpl;
      rewrite ?addIssuer_eq, ?removeIssuer_eq, ?grantRole_eq, ?revokeRole_eq, Hnot;
      by repeat split.
    unfold apply_tx, execute; simpl. rewrite renounceRole_eq.
    destruct (bool_decide (a = msg_sender env)) eqn:Hself; [|by repeat split].
    apply bool_decide_eq_true in Hself as ->.
    destruct (hasRole st r (msg_sender env)) eqn:Hhad; [|by repeat split].
    split; [|split].
    + rewrite !hasRole_true. simpl. rewrite elem_of_difference. tauto.
    + intros Hother.
      destruct (hasRole st role account) eqn:Hold.
      * apply hasRole_true. apply hasRole_true in Hold. simpl.
        rewrite elem_of_difference, elem_of_singleton.
        split; [exact Hold|]. intros [= _ Heq]. by apply Hother.
      * apply hasRole_false. apply hasRole_false in Hold. simpl.
        rewrite elem_of_difference. tauto.
    + intros _. by exists r.
  - intros st env Hhas.
    unfold apply_tx, execute; simpl. rewrite renounceRole_eq.
    rewrite bool_decide_eq_true_2 by done. rewrite Hhas.
    apply hasRole_false. simpl.
    rewrite elem_of_difference, elem_of_singleton. tauto.
Qed.

(** ** [addIssuer] and [removeIssuer] *)

(** X4.  When [addIssuer(account)] goes through, the caller holds the
    admin role, [account] holds the issuer role afterwards, no other
    membership changes, records and log are untouched, and calling it
    again changes nothing more. *)
Theorem addIssuer_grants_one_role (st : State) (env : Env) (account : Z) (st' : State) :
  addIssuer account env st = Done tt st' ->
  hasRole st DEFAULT_ADMIN_ROLE (msg_sender env) = true
  /\ hasRole st' ISSUER_ROLE account = true
  /\ (forall role other,
        (role, other) <> (ISSUER_ROLE, account) ->
        hasRole st' role other = hasRole st role other)
  /\ records st' = records st
  /\ log st' = log st
  /\ (forall env', addIssuer account env' st' = Done tt st'
                   \/ addIssuer account env' st' = Reverted Unauthorized).
Proof.
  rewrite addIssuer_eq, grantRole_eq.
  destruct (hasRole st DEFAULT_ADMIN_ROLE (msg_sender env)); [|discriminate].
  destruct (hasRole st ISSUER_ROLE account) eqn:Hhad; intros [= <-].
  - do 2 (split; [done|]). split; [done|]. do 2 (split; [done|]).
    intros env'. rewrite addIssuer_eq, grantRole_eq, Hhad.
    destruct (hasRole st DEFAULT_ADMIN_ROLE (msg_sender env')); tauto.
  - assert (hasRole
              (mkState ({[ (ISSUER_ROLE, account) ]} ∪ roles st) (records st) (log st))
              ISSUER_ROLE account = true) as Hnow.
    { apply hasRole_true. simpl. rewrite elem_of_union, elem_of_singleton. tauto. }
    split; [done|]. split; [exact Hnow|]. split.
    + intros role other Hne. unfold hasRole. simpl.
      apply bool_decide_ext. rewrite elem_of_union, elem_of_singleton. tauto.
    + do 2 (split; [done|]).
      intros env'. rewrite addIssuer_eq, grantRole_eq, Hnow.
      destruct (hasRole _ DEFAULT_ADMIN_ROLE (msg_sender env')); tauto.
Qed.

Lemma addIssuer_grants_one_role_witness :
  let A := 0xA11CE in
  let B := 0xB0B in
  let env := mkEnv A 1700000000 in
  let st' := apply_tx (constructor A) (mkTx env (CallAddIssuer B)) in
  hasRole (constructor A) ISSUER_ROLE B = false
  /\ hasRole (constructor A) DEFAULT_ADMIN_ROLE (msg_sender env) = true
  /\ hasRole st' ISSUER_ROLE B = true
  /\ (forall role other,
        (role, other) <> (ISSUER_ROLE, B) ->
        hasRole st' role other = hasRole (constructor A) role other)
  /\ records st' = records (constructor A)
  /\ log st' = log (constructor A)
  /\ (forall env', addIssuer B env' st' = Done tt st'
                   \/ addIssuer B env' st' = Reverted Unauthorized).
Proof.
  cbv zeta. split; [by vm_compute|].
  apply (addIssuer_grants_one_role (constructor 0xA11CE) (mkEnv 0xA11CE 1700000000)).
  vm_compute. reflexivity.
Defined.

(** X5.  Granting and removing undo each other.  When an admin adds an
    account that was not an issuer and then removes it, the state is
    exactly the state before; likewise when it removes an account that was
    an issuer and then adds it back. *)
Theorem add_then_remove_restores (st : State) (env1 env2 : Env) (account : Z) :
  hasRole st DEFAULT_ADMIN_ROLE (msg_sender env1) = true ->
  hasRole st DEFAULT_ADMIN_ROLE (msg_sender env2) = true ->
  (hasRole st ISSUER_ROLE account = false ->
   run st [mkTx env1 (CallAddIssuer account); mkTx env2 (CallRemoveIssuer account)] = st)
  /\ (hasRole st ISSUER_ROLE account = true ->
      run st [mkTx env1 (CallRemoveIssuer account); mkTx env2 (CallAddIssuer account)] = st).
Proof.
  intros Hadmin1 Hadmin2.
  split; intros Hhas; simpl; unfold apply_tx, execute; simpl.
  - rewrite addIssuer_eq, grantRole_eq, Hadmin1, Hhas.
    rewrite removeIssuer_eq, revokeRole_eq.
    assert (hasRole (mkState ({[ (ISSUER_ROLE, account) ]} ∪ roles st)
                       (records st) (log st))
              DEFAULT_ADMIN_ROLE (msg_sender env2) = true) as ->.
    { apply hasRole_true. simpl. apply hasRole_true in Hadmin2.
      rewrite elem_of_union. tauto. }
    assert (hasRole (mkState ({[ (ISSUER_ROLE, account) ]} ∪ roles st)
                       (records st) (log st))
              ISSUER_ROLE account = true) as ->.
    { apply hasRole_true. simpl. rewrite elem_of_union, elem_of_singleton. tauto. }
    simpl. destruct st as [rs recs lg]. simpl. f_equal.
    apply hasRole_false in Hhas. simpl in Hhas.
    apply set_eq. intros y.
    rewrite elem_of_difference, elem_of_union, elem_of_singleton.
    split; [tauto|]. intros Hy. split; [tauto|]. by intros ->.
  - rewrite removeIssuer_eq, revokeRole_eq, Hadmin1, Hhas.
    rewrite addIssuer_eq, grantRole_eq.
    assert (hasRole (mkState (roles st ∖ {[ (ISSUER_ROLE, account) ]})
                       (records st) (log st))
              DEFAULT_ADMIN_ROLE (msg_sender env2) = true) as ->.
    { apply hasRole_true. simpl. apply hasRole_true in Hadmin2.
      rewrite elem_of_difference, elem_of_singleton. split; [done|].
      intros [=]. }
    assert (hasRole (mkState (roles st ∖ {[ (ISSUER_ROLE, account) ]})
                       (records st) (log st))
              ISSUER_ROLE account = false) as ->.
    { apply hasRole_false. simpl. rewrite elem_of_difference, elem_of_singleton. tauto. }
    simpl. destruct st as [rs recs lg]. simpl. f_equal.
    apply hasRole_true in Hhas. simpl in Hhas.
    apply set_eq. intros y.
    rewrite elem_of_union, elem_of_difference, elem_of_singleton.
    split; [intros [->|[Hy _]]; done|].
    intros Hy. destruct (decide (y = (ISSUER_ROLE, account))); tauto.
Qed.

Lemma add_then_remove_restores_witness :
  let A := 0xA11CE in
  let B := 0xB0B in
  let st := constructor A in
  let env1 := mkEnv A 1700000000 in
  let env2 := mkEnv A 1700000060 in
  hasRole st ISSUER_ROLE B = false
  /\ hasRole st ISSUER_ROLE A = true
  /\ (hasRole st ISSUER_ROLE B = false ->
      run st [mkTx env1 (CallAddIssuer B); mkTx env2 (CallRemoveIssuer B)] = st)
  /\ (hasRole st ISSUER_ROLE B = true ->
      run st [mkTx env1 (CallRemoveIssuer B); mkTx env2 (CallAddIssuer B)] = st).
Proof.
  cbv zeta. split; [by vm_compute|]. split; [by vm_compute|].
  apply add_then_remove_restores; by vm_compute.
Defined.

Lemma own_call_keeps_admins st tx account :
  is_own_call tx = true ->
  hasRole (apply_tx st tx) DEFAULT_ADMIN_ROLE account
  = hasRole st DEFAULT_ADMIN_ROLE account.
Proof.
  intros Hown. pose proof (credential_calls_keep_roles st tx) as Hkeep.
  destruct tx as [env c]. unfold is_own_call in Hown. simpl in *.
  destruct c as [h|h|a|a|r a|r a|r a]; try discriminate.
  1-2: unfold hasRole; by rewrite Hkeep.
  all: unfold apply_tx, execute; simpl;
    rewrite ?addIssuer_eq, ?removeIssuer_eq, ?grantRole_eq, ?revokeRole_eq,
      ?renounceRole_eq;
    case_ifs; try reflexivity; unfold hasRole; simpl; apply bool_decide_ext.
  - rewrite elem_of_union, elem_of_singleton. split; [|tauto].
    intros [[=]|Hin]; done.
  - rewrite elem_of_difference, elem_of_singleton. split; [tauto|].
    intros Hin. split; [done|]. intros [=].
Qed.

(** X6.  The four functions the contract declares never change who holds
    the admin role: after any sequence of [issue], [revoke], [addIssuer]
    and [removeIssuer] calls, by anybody, the admins are the accounts that
    were admins before; from deployment on, that is the deployer's
    [admin] alone. *)
Theorem own_calls_keep_admins (st : State) (txs : list Transaction) :
  forallb is_own_call txs = true ->
  (forall account,
      hasRole (run st txs) DEFAULT_ADMIN_ROLE account
      = hasRole st DEFAULT_ADMIN_ROLE account)
  /\ (forall admin account,
        hasRole (run (constructor admin) txs) DEFAULT_ADMIN_ROLE account = true
        <-> account = admin).
Proof.
  intros Hall.
  assert (forall st0 account,
             hasRole (run st0 txs) DEFAULT_ADMIN_ROLE account
             = hasRole st0 DEFAULT_ADMIN_ROLE account) as Hsame.
  { clear st. induction txs as [|tx txs IH]; intros st account; simpl in *; [done|].
    apply andb_prop in Hall as [Htx Hrest].
    rewrite (IH Hrest). by apply own_call_keeps_admins. }
  split; [apply Hsame|].
  intros admin account. rewrite Hsame, constructor_hasRole.
  split; [tauto|]. intros ->. tauto.
Qed.

Lemma own_calls_keep_admins_witness :
  let A := 0xA11CE in
  let B := 0xB0B in
  let txs := [mkTx (mkEnv A 1700000000) (CallAddIssuer B);
              mkTx (mkEnv B 1700000010) (CallIssue 0xAA);
              mkTx (mkEnv A 1700000020) (CallRemoveIssuer A)] in
  hasRole (run (constructor A) txs) ISSUER_ROLE A = false
  /\ (forall account,
        hasRole (run (constructor A) txs) DEFAULT_ADMIN_ROLE account
        = hasRole (constructor A) DEFAULT_ADMIN_ROLE account)
  /\ (forall admin account,
        hasRole (run (constructor admin) txs) DEFAULT_ADMIN_ROLE account = true
        <-> account = admin).
Proof.
  cbv zeta. split; [by vm_compute|].
  apply own_calls_keep_admins. reflexivity.
Defined.

(** ** Credentials and the role table are kept apart *)

(** X7.  Calls that are not [issue] or [revoke] never touch a credential:
    after any sequence of role grants and removals every record reads as
    before, so [verify] answers as before, and the event log is as
    before.  In particular a credential stays valid when its issuer loses
    the issuer role. *)
Theorem role_calls_keep_credentials (st : State) (txs : list Transaction) :
  forallb (fun tx => negb (is_credential_call tx)) txs = true ->
  records (run st txs) = records st
  /\ log (run st txs) = log st
  /\ (forall h env,
        exists out,
          verify h env st = Done out st
          /\ verify h env (run st txs) = Done out (run st txs)).
Proof.
  intros Hall.
  assert (records (run st txs) = records st /\ log (run st txs) = log st) as [Hrec Hlog].
  { revert st. induction txs as [|tx txs IH]; intros st; simpl in *; [done|].
    apply andb_prop in Hall as [Htx Hrest]. apply negb_true_iff in Htx.
    destruct (IH Hrest (apply_tx st tx)) as [-> ->].
    pose proof (role_calls_keep_records st tx) as Hkeep.
    unfold is_credential_call in Htx.
    destruct (tx_call tx); try discriminate; exact Hkeep. }
  split; [exact Hrec|]. split; [exact Hlog|].
  intros h env. eexists. split; [apply verify_eq|].
  rewrite verify_eq. by rewrite (recordOf_ext _ _ _ Hrec).
Qed.

Lemma role_calls_keep_credentials_witness :
  let A := 0xA11CE in
  let B := 0xB0B in
  let st := run (constructor A) [mkTx (mkEnv A 1700000000) (CallAddIssuer B);
                                 mkTx (mkEnv B 1700000010) (CallIssue 0xAA)] in
  let txs := [mkTx (mkEnv A 1700000020) (CallRemoveIssuer B)] in
  hasRole (run st txs) ISSUER_ROLE B = false
  /\ verify 0xAA (mkEnv 0 0) (run st txs) = Done (true, false, 1700000010, B) (run st txs)
  /\ records (run st txs) = records st
  /\ log (run st txs) = log st
  /\ (forall h env,
        exists out,
          verify h env st = Done out st
          /\ verify h env (run st txs) = Done out (run st txs)).
Proof.
  cbv zeta. split; [by vm_compute|].
  split; [rewrite verify_eq; f_equal; by vm_compute|].
  apply role_calls_keep_credentials. reflexivity.
Defined.

(** ** What [issue] changes *)

(** X8.  An [issue] of hash [h] goes through only for a caller holding
    the issuer role and only when [h] is unissued; it then writes the
    record [(timestamp mod 2^64, false, caller)] for [h], leaves the slot
    of every other hash and the role table as they were, and appends
    exactly one [Issued] event naming [h], the caller and the stored
    time. *)
Theorem issue_changes_one_slot (st : State) (h : Z) (env : Env) (st' : State) :
  issue h env st = Done tt st' ->
  hasRole st ISSUER_ROLE (msg_sender env) = true
  /\ issuedAt (recordOf st h) = 0
  /\ recordOf st' h = mkRecord (uint64 (block_timestamp env)) false (msg_sender env)
  /\ (forall h', h' <> h -> records st' !! h' = records st !! h')
  /\ roles st' = roles st
  /\ log st' = log st ++ [mkEntry (length (log st))
                            (Issued h (msg_sender env) (issuedAt (recordOf st' h)))].
Proof.
  rewrite issue_eq.
  destruct (hasRole st ISSUER_ROLE (msg_sender env)); [|discriminate].
  destruct (issuedAt (recordOf st h) =? 0) eqn:Hz; [|discriminate].
  intros [= <-]. apply Z.eqb_eq in Hz.
  rewrite recordOf_insert_eq. simpl.
  do 3 (split; [done|]). split; [|done].
  intros h' Hne. by rewrite lookup_insert_ne.
Qed.

Lemma issue_changes_one_slot_witness :
  let A := 0xA11CE in
  let env := mkEnv A 1700000000 in
  let st := constructor A in
  let st' := apply_tx st (mkTx env (CallIssue 0xAA)) in
  hasRole st ISSUER_ROLE (msg_sender env) = true
  /\ issuedAt (recordOf st 0xAA) = 0
  /\ recordOf st' 0xAA = mkRecord (uint64 (block_timestamp env)) false (msg_sender env)
  /\ (forall h', h' <> 0xAA -> records st' !! h' = records st !! h')
  /\ roles st' = roles st
  /\ log st' = log st ++ [mkEntry (length (log st))
                            (Issued 0xAA (msg_sender env) (issuedAt (recordOf st' 0xAA)))].
Proof.
  cbv zeta.
  apply (issue_changes_one_slot (constructor 0xA11CE) 0xAA (mkEnv 0xA11CE 1700000000)).
  vm_compute. reflexivity.
Defined.

(** ** Stored times fit in 64 bits *)

Lemma uint64_range x : 0 <= uint64 x < 2 ^ 64.
Proof. unfold uint64. apply Z.mod_pos_bound. lia. Qed.

Lemma succeeds_issue st env h :
  succeeds st (mkTx env (CallIssue h))
  = hasRole st ISSUER_ROLE (msg_sender env) && (issuedAt (recordOf st h) =? 0).
Proof.
  unfold succeeds, execute; simpl. rewrite issue_eq.
  destruct (hasRole st ISSUER_ROLE (msg_sender env)); [|reflexivity].
  by destruct (issuedAt (recordOf st h) =? 0).
Qed.

Lemma succeeds_revoke st env h :
  succeeds st (mkTx env (CallRevoke h))
  = hasRole st ISSUER_ROLE (msg_sender env) && negb (issuedAt (recordOf st h) =? 0).
Proof.
  unfold succeeds, execute; simpl. rewrite revoke_eq.
  destruct (hasRole st ISSUER_ROLE (msg_sender env)); [|reflexivity].
  by destruct (issuedAt (recordOf st h) =? 0).
Qed.

Lemma issuedAt_range_step st tx :
  (forall h, 0 <= issuedAt (recordOf st h) < 2 ^ 64) ->
  forall h, 0 <= issuedAt (recordOf (apply_tx st tx) h) < 2 ^ 64.
Proof.
  intros Hinv h. pose proof (role_step_record st tx h) as Hrole.
  destruct tx as [env c]; simpl in Hrole.
  destruct c as [h'|h'| | | | | ].
  3-7: rewrite Hrole; apply Hinv.
  - rewrite issue_step_record. destruct (_ && _ && _); [|apply Hinv].
    simpl. apply uint64_range.
  - rewrite revoke_step_record. destruct (_ && _ && _); [|apply Hinv].
    simpl. apply Hinv.
Qed.

Lemma event_time_range_step st tx :
  Forall (fun e => 0 <= event_time (entry_event e) < 2 ^ 64) (log st) ->
  Forall (fun e => 0 <= event_time (entry_event e) < 2 ^ 64) (log (apply_tx st tx)).
Proof.
  intros Hinv. rewrite log_step.
  destruct (succeeds st tx); [|by rewrite app_nil_r].
  destruct (event_of tx) as [e|] eqn:He; [|by rewrite app_nil_r].
  apply Forall_app. split; [exact Hinv|]. apply Forall_singleton. simpl.
  unfold event_of in He.
  destruct (tx_call tx); try discriminate; injection He as <-; simpl;
    apply uint64_range.
Qed.

(** X9.  In every state reached from deployment, whatever timestamps the
    calls ran at, every stored [issuedAt] and every time in an event lies
    in the range of a [uint64], from 0 to [2^64 - 1]. *)
Theorem stored_times_fit_uint64 (admin : Z) (txs : list Transaction) :
  (forall h, 0 <= issuedAt (recordOf (run (constructor admin) txs) h) < 2 ^ 64)
  /\ Forall (fun e => 0 <= event_time (entry_event e) < 2 ^ 64)
       (log (run (constructor admin) txs)).
Proof.
  assert (forall st,
             (forall h, 0 <= issuedAt (recordOf st h) < 2 ^ 64)
             /\ Forall (fun e => 0 <= event_time (entry_event e) < 2 ^ 64) (log st) ->
             (forall h, 0 <= issuedAt (recordOf (run st txs) h) < 2 ^ 64)
             /\ Forall (fun e => 0 <= event_time (entry_event e) < 2 ^ 64)
                  (log (run st txs))) as Hrun.
  { induction txs as [|tx txs IH]; intros st [Hrec Hlog]; simpl; [done|].
    apply IH. split; [by apply issuedAt_range_step | by apply event_time_range_step]. }
  apply Hrun. split.
  - intros h. rewrite recordOf_fresh; [simpl; lia|].
    rewrite constructor_records. apply lookup_empty.
  - rewrite constructor_log. constructor.
Qed.

(** ** What never changes again *)

Lemma issued_record_step st tx h :
  issuedAt (recordOf st h) <> 0 ->
  issuedAt (recordOf (apply_tx st tx) h) = issuedAt (recordOf st h)
  /\ issuer (recordOf (apply_tx st tx) h) = issuer (recordOf st h).
Proof.
  intros Hnz. pose proof (role_step_record st tx h) as Hrole.
  destruct tx as [env c]; simpl in Hrole.
  destruct c as [h'|h'| | | | | ].
  3-7: by rewrite Hrole.
  - rewrite issue_step_record. apply Z.eqb_neq in Hnz. rewrite Hnz.
    by rewrite andb_false_r.
  - rewrite revoke_step_record. by destruct (_ && _ && _).
Qed.

(** X10.  Once a hash is issued, its issuer and its time of issue are
    fixed for good: no sequence of calls, by anybody, changes the [issuer]
    or the [issuedAt] that [verify] reports for it. *)
Theorem issuer_is_fixed_at_issue (st : State) (txs : list Transaction) (h : Z) :
  issuedAt (recordOf st h) <> 0 ->
  issuedAt (recordOf (run st txs) h) = issuedAt (recordOf st h)
  /\ issuer (recordOf (run st txs) h) = issuer (recordOf st h)
  /\ (forall env,
        exists rev,
          verify h env (run st txs)
          = Done (true, rev, issuedAt (recordOf st h), issuer (recordOf st h))
              (run st txs)).
Proof.
  intros Hnz.
  assert (issuedAt (recordOf (run st txs) h) = issuedAt (recordOf st h)
          /\ issuer (recordOf (run st txs) h) = issuer (recordOf st h)) as [Ht Hwho].
  { revert st Hnz. induction txs as [|tx txs IH]; intros st Hnz; simpl; [done|].
    destruct (issued_record_step st tx h Hnz) as [Ht Hwho].
    destruct (IH (apply_tx st tx)) as [IHt IHwho]; [by rewrite Ht|].
    by rewrite IHt, IHwho. }
  do 2 (split; [done|]).
  intros env. exists (revoked (recordOf (run st txs) h)).
  rewrite verify_eq, Ht, Hwho. apply Z.eqb_neq in Hnz. by rewrite Hnz.
Qed.

Lemma issuer_is_fixed_at_issue_witness :
  let A := 0xA11CE in
  let B := 0xB0B in
  let st := apply_tx (constructor A) (mkTx (mkEnv A 1700000000) (CallIssue 0xAA)) in
  let txs := [mkTx (mkEnv A 1700000010) (CallAddIssuer B);
              mkTx (mkEnv B 1700000020) (CallIssue 0xAA);
              mkTx (mkEnv B 1700000030) (CallRevoke 0xAA)] in
  issuedAt (recordOf (run st txs) 0xAA) = issuedAt (recordOf st 0xAA)
  /\ issuer (recordOf (run st txs) 0xAA) = issuer (recordOf st 0xAA)
  /\ (forall env,
        exists rev,
          verify 0xAA env (run st txs)
          = Done (true, rev, issuedAt (recordOf st 0xAA), issuer (recordOf st 0xAA))
              (run st txs)).
Proof.
  cbv zeta. apply issuer_is_fixed_at_issue. vm_compute. discriminate.
Defined.

(** X11.  The event log only grows: after any sequence of calls every
    entry that was in the log is still there, at the same position and
    unchanged. *)
Theorem log_is_append_only (st : State) (txs : list Transaction) :
  (exists added, log (run st txs) = log st ++ added)
  /\ (forall i e, log st !! i = Some e -> log (run st txs) !! i = Some e).
Proof.
  assert (exists added, log (run st txs) = log st ++ added) as [added Hadded].
  { revert st. induction txs as [|tx txs IH]; intros st; simpl.
    - exists []. by rewrite app_nil_r.
    - destruct (IH (apply_tx st tx)) as [added ->]. rewrite log_step.
      rewrite <- app_assoc. eauto. }
  split; [by exists added|].
  intros i e Hi. rewrite Hadded. by apply lookup_app_l_Some.
Qed.

(** ** Records and log tell the same story *)

Lemma consistent_step st tx :
  record_invariant st ->
  (forall h, issuedAt (recordOf st h) <> 0 ->
             In (Issued h (issuer (recordOf st h)) (issuedAt (recordOf st h)))
                (map entry_event (log st))) ->
  (forall h, revoked (recordOf st h) = true
             <-> exists who t, In (Revoked h who t) (map entry_event (log st))) ->
  (forall h, issuedAt (recordOf (apply_tx st tx) h) <> 0 ->
             In (Issued h (issuer (recordOf (apply_tx st tx) h))
                   (issuedAt (recordOf (apply_tx st tx) h)))
                (map entry_event (log (apply_tx st tx))))
  /\ (forall h, revoked (recordOf (apply_tx st tx) h) = true
                <-> exists who t,
                      In (Revoked h who t) (map entry_event (log (apply_tx st tx)))).
Proof.
  intros Hinv Hiss Hrev.
  assert (forall h e, (exists who t, In (Revoked h who t)
                                        (map entry_event (log st) ++ [e]))
                      <-> (exists who t, In (Revoked h who t) (map entry_event (log st)))
                          \/ (exists who t, e = Revoked h who t)) as Hsplit.
  { intros h e. split.
    - intros (who & t & Hin). apply in_app_or in Hin as [Hin|[Heq|[]]]; eauto.
    - intros [(who & t & Hin)|(who & t & ->)]; exists who, t; apply in_or_app;
        [by left | right; by left]. }
  pose proof (role_calls_keep_records st tx) as Hrole.
  destruct tx as [env c]. simpl in Hrole.
  destruct c as [h'|h'| | | | | ].
  3-7: destruct Hrole as [Hrec Hlog]; rewrite Hlog; split; intros h;
       rewrite !(recordOf_ext _ _ _ Hrec); [apply Hiss | apply Hrev].
  - (* issue h' *)
    assert (forall h, recordOf (apply_tx st (mkTx env (CallIssue h'))) h
                      = if bool_decide (h' = h) && succeeds st (mkTx env (CallIssue h'))
                        then mkRecord (uint64 (block_timestamp env)) false (msg_sender env)
                        else recordOf st h) as Hrecord.
    { intros h. rewrite issue_step_record, succeeds_issue.
      destruct (decide (h' = h)) as [->|Hne].
      - rewrite bool_decide_eq_true_2 by done. by rewrite andb_assoc.
      - by rewrite bool_decide_eq_false_2 by done. }
    rewrite log_step. unfold event_of. simpl.
    destruct (succeeds st (mkTx env (CallIssue h'))) eqn:Hok.
    + rewrite succeeds_issue in Hok. apply andb_prop in Hok as [_ Hfresh].
      apply Z.eqb_eq in Hfresh.
      rewrite map_app. simpl. split; intros h; rewrite Hrecord, andb_true_r.
      * destruct (decide (h' = h)) as [->|Hne].
        -- rewrite bool_decide_eq_true_2 by done. simpl. intros _.
           apply in_or_app. right. by left.
        -- rewrite bool_decide_eq_false_2 by done. intros Hnz.
           apply in_or_app. left. by apply Hiss.
      * etransitivity; [|symmetry; apply Hsplit].
        destruct (decide (h' = h)) as [->|Hne].
        -- rewrite bool_decide_eq_true_2 by done. simpl. split; [discriminate|].
           intros [Hold|(who & t & [=])].
           apply Hrev in Hold. rewrite (Hinv h Hfresh) in Hold. discriminate.
        -- rewrite bool_decide_eq_false_2 by done. rewrite Hrev.
           split; [tauto|]. intros [Hold|(who & t & [=])]. exact Hold.
    + rewrite app_nil_r. split; intros h; rewrite Hrecord, andb_false_r;
        [apply Hiss | apply Hrev].
  - (* revoke h' *)
    assert (forall h, recordOf (apply_tx st (mkTx env (CallRevoke h'))) h
                      = if bool_decide (h' = h) && succeeds st (mkTx env (CallRevoke h'))
                        then mkRecord (issuedAt (recordOf st h)) true (issuer (recordOf st h))
                        else recordOf st h) as Hrecord.
    { intros h. rewrite revoke_step_record, succeeds_revoke.
      destruct (decide (h' = h)) as [->|Hne].
      - rewrite bool_decide_eq_true_2 by done. by rewrite andb_assoc.
      - by rewrite bool_decide_eq_false_2 by done. }
    rewrite log_step. unfold event_of. simpl.
    destruct (succeeds st (mkTx env (CallRevoke h'))) eqn:Hok.
    + rewrite map_app. simpl. split; intros h; rewrite Hrecord, andb_true_r.
      * destruct (decide (h' = h)) as [->|Hne].
        -- rewrite bool_decide_eq_true_2 by done. simpl. intros Hnz.
           apply in_or_app. left. by apply Hiss.
        -- rewrite bool_decide_eq_false_2 by done. intros Hnz.
           apply in_or_app. left. by apply Hiss.
      * etransitivity; [|symmetry; apply Hsplit].
        destruct (decide (h' = h)) as [->|Hne].
        -- rewrite bool_decide_eq_true_2 by done. simpl. split; [|done].
           intros _. right. eauto.
        -- rewrite bool_decide_eq_false_2 by done. rewrite Hrev.
           split; [tauto|]. intros [Hold|(who & t & [= Heq _ _])]; [exact Hold|].
           by destruct Hne.
    + rewrite app_nil_r. split; intros h; rewrite Hrecord, andb_false_r;
        [apply Hiss | apply Hrev].
Qed.

(** X12.  In every state reached from deployment the storage and the log
    agree: for every issued hash the log holds the [Issued] event that
    names the issuer and the time the record holds, and a record is
    revoked exactly when the log holds a [Revoked] event for its hash. *)
Theorem records_agree_with_log (admin : Z) (txs : list Transaction) :
  let st := run (constructor admin) txs in
  (forall h, issuedAt (recordOf st h) <> 0 ->
             In (Issued h (issuer (recordOf st h)) (issuedAt (recordOf st h)))
                (map entry_event (log st)))
  /\ (forall h, revoked (recordOf st h) = true
                <-> exists who t, In (Revoked h who t) (map entry_event (log st))).
Proof.
  cbv zeta.
  assert (forall st,
             record_invariant st ->
             (forall h, issuedAt (recordOf st h) <> 0 ->
                        In (Issued h (issuer (recordOf st h)) (issuedAt (recordOf st h)))
                           (map entry_event (log st))) ->
             (forall h, revoked (recordOf st h) = true
                        <-> exists who t, In (Revoked h who t) (map entry_event (log st))) ->
             (forall h, issuedAt (recordOf (run st txs) h) <> 0 ->
                        In (Issued h (issuer (recordOf (run st txs) h))
                              (issuedAt (recordOf (run st txs) h)))
                           (map entry_event (log (run st txs))))
             /\ (forall h, revoked (recordOf (run st txs) h) = true
                           <-> exists who t,
                                 In (Revoked h who t)
                                    (map entry_event (log (run st txs))))) as Hrun.
  { induction txs as [|tx txs IH]; intros st Hinv Hiss Hrev; simpl; [done|].
    destruct (consistent_step st tx Hinv Hiss Hrev) as [Hiss' Hrev'].
    apply IH; [by apply record_invariant_step | exact Hiss' | exact Hrev']. }
  apply Hrun.
  - apply record_invariant_constructor.
  - intros h. rewrite recordOf_fresh; [done|].
    rewrite constructor_records. apply lookup_empty.
  - intros h. rewrite recordOf_fresh
      by (rewrite constructor_records; apply lookup_empty).
    rewrite constructor_log. simpl. split; [discriminate|].
    by intros (who & t & []).
Qed.

Lemma dated_issues_snoc h l n e :
  dated_issues h (l ++ [mkEntry n e])
  = (dated_issues h l + (if is_dated_issue h e then 1 else 0))%nat.
Proof.
  unfold dated_issues. rewrite map_app, List.filter_app, length_app. simpl.
  by destruct (is_dated_issue h e).
Qed.

Lemma dated_issues_step st tx h :
  dated_issues h (log st) = (if (issuedAt (recordOf st h) =? 0)%Z then 0%nat else 1%nat) ->
  dated_issues h (log (apply_tx st tx))
  = (if (issuedAt (recordOf (apply_tx st tx) h) =? 0)%Z then 0%nat else 1%nat).
Proof.
  intros Hinv. pose proof (role_calls_keep_records st tx) as Hrole.
  destruct tx as [env c]. simpl in Hrole.
  destruct c as [h'|h'| | | | | ].
  3-7: destruct Hrole as [Hrec Hlog]; by rewrite Hlog, (recordOf_ext _ _ _ Hrec).
  - rewrite log_step, issue_step_record, succeeds_issue. unfold event_of. simpl.
    destruct (hasRole st ISSUER_ROLE (msg_sender env)); simpl;
      [|by rewrite app_nil_r, andb_false_r].
    destruct (issuedAt (recordOf st h') =? 0) eqn:Hfresh; simpl.
    + rewrite dated_issues_snoc, Hinv. simpl.
      destruct (decide (h' = h)) as [->|Hne].
      * rewrite bool_decide_eq_true_2 by done. rewrite Hfresh. simpl.
        by destruct (uint64 (block_timestamp env) =? 0).
      * rewrite bool_decide_eq_false_2 by done. simpl. lia.
    + rewrite app_nil_r, Hinv.
      destruct (decide (h' = h)) as [->|Hne].
      * rewrite Hfresh, andb_false_r. simpl. by rewrite Hfresh.
      * rewrite bool_decide_eq_false_2 by done. reflexivity.
  - rewrite log_step, revoke_step_record, succeeds_revoke. unfold event_of. simpl.
    assert (issuedAt
              (if bool_decide (h' = h) && hasRole st ISSUER_ROLE (msg_sender env)
                  && negb (issuedAt (recordOf st h) =? 0)
               then mkRecord (issuedAt (recordOf st h)) true (issuer (recordOf st h))
               else recordOf st h) = issuedAt (recordOf st h)) as ->
      by (by destruct (_ && _ && _)).
    destruct (hasRole st ISSUER_ROLE (msg_sender env) &&
              negb (issuedAt (recordOf st h') =? 0));
      [rewrite dated_issues_snoc; simpl; lia | by rewrite app_nil_r].
Qed.

(** X13.  In every state reached from deployment the log holds at most
    one [Issued] event with a time other than zero for any hash, and it
    holds one exactly when [verify] reports the hash as issued. *)
Theorem one_dated_issue_per_hash (admin : Z) (txs : list Transaction) (h : Z) :
  let st := run (constructor admin) txs in
  dated_issues h (log st) = (if (issuedAt (recordOf st h) =? 0)%Z then 0%nat else 1%nat)
  /\ (dated_issues h (log st) <= 1)%nat.
Proof.
  cbv zeta.
  assert (forall st,
             dated_issues h (log st)
             = (if (issuedAt (recordOf st h) =? 0)%Z then 0%nat else 1%nat) ->
             dated_issues h (log (run st txs))
             = (if (issuedAt (recordOf (run st txs) h) =? 0)%Z then 0%nat else 1%nat)) as Hrun.
  { induction txs as [|tx txs IH]; intros st Hinv; simpl; [done|].
    by apply IH, dated_issues_step. }
  assert (dated_issues h (log (run (constructor admin) txs))
          = (if (issuedAt (recordOf (run (constructor admin) txs) h) =? 0)%Z
             then 0%nat else 1%nat)) as Heq.
  { apply Hrun. rewrite constructor_log.
    rewrite recordOf_fresh by (rewrite constructor_records; apply lookup_empty).
    reflexivity. }
  split; [exact Heq|]. rewrite Heq. destruct (_ =? 0); lia.
Qed.

(** ** Any issuer may revoke *)

(** X14.  Revocation is not tied to the account that issued: when [A]
    issues an unissued hash at a time whose low 64 bits are not zero and
    any holder of the issuer role [B] then revokes it, the revocation goes
    through, [verify] reports the hash as revoked with [A] still as its
    issuer, and the last event of the log is the [Revoked] event naming
    [B]. *)
Theorem any_issuer_may_revoke (st : State) (h : Z) (envA envB : Env) :
  hasRole st ISSUER_ROLE (msg_sender envA) = true ->
  hasRole st ISSUER_ROLE (msg_sender envB) = true ->
  issuedAt (recordOf st h) = 0 ->
  uint64 (block_timestamp envA) <> 0 ->
  let st2 := run st [mkTx envA (CallIssue h); mkTx envB (CallRevoke h)] in
  (forall env,
      verify h env st2
      = Done (true, true, uint64 (block_timestamp envA), msg_sender envA) st2)
  /\ map entry_event (log st2)
     = map entry_event (log st)
       ++ [Issued h (msg_sender envA) (uint64 (block_timestamp envA));
           Revoked h (msg_sender envB) (uint64 (block_timestamp envB))].
Proof.
  intros HA HB Hfresh Htime. cbv zeta. simpl.
  apply Z.eqb_neq in Htime.
  erewrite (apply_tx_done st (mkTx envA (CallIssue h)));
    [|unfold execute; simpl; by rewrite issue_eq, HA, Hfresh].
  erewrite apply_tx_done; cycle 1.
  { unfold execute. simpl. rewrite revoke_eq, recordOf_insert_eq. simpl.
    change (hasRole (mkState (roles st) ?m ?l) ISSUER_ROLE (msg_sender envB))
      with (hasRole st ISSUER_ROLE (msg_sender envB)).
    rewrite HB, Htime. reflexivity. }
  split.
  - intros env. rewrite verify_eq, recordOf_insert_eq. simpl. by rewrite Htime.
  - simpl. rewrite !map_app. simpl. by rewrite <- app_assoc.
Qed.

Lemma any_issuer_may_revoke_witness :
  let A := 0xA11CE in
  let B := 0xB0B in
  let st := apply_tx (constructor A) (mkTx (mkEnv A 1700000000) (CallAddIssuer B)) in
  let envA := mkEnv A 1700000010 in
  let envB := mkEnv B 1700000020 in
  let st2 := run st [mkTx envA (CallIssue 0xAA); mkTx envB (CallRevoke 0xAA)] in
  (forall env,
      verify 0xAA env st2
      = Done (true, true, uint64 (block_timestamp envA), msg_sender envA) st2)
  /\ map entry_event (log st2)
     = map entry_event (log st)
       ++ [Issued 0xAA (msg_sender envA) (uint64 (block_timestamp envA));
           Revoked 0xAA (msg_sender envB) (uint64 (block_timestamp envB))].
Proof.
  cbv zeta.
  apply (any_issuer_may_revoke
           (apply_tx (constructor 0xA11CE)
              (mkTx (mkEnv 0xA11CE 1700000000) (CallAddIssuer 0xB0B)))
           0xAA (mkEnv 0xA11CE 1700000010) (mkEnv 0xB0B 1700000020)).
  - by vm_compute.
  - by vm_compute.
  - by vm_compute.
  - vm_compute. discriminate.
Defined.

(** ** [verify] is a total read *)

(** X21.  For every document hash, in every state and for every caller,
    [verify] returns without reverting and leaves the state alone; its
    answer is read off the hash's record, [issued] saying that the stored
    [issuedAt] is not zero.  For a hash whose slot was never written, and
    so after any history from deployment that contains no [issue] of it,
    the answer is [(false, false, 0, 0)]. *)
Theorem verify_is_a_total_read (docHash : Z) (env : Env) (st : State) :
  verify docHash env st
  = Done (negb (issuedAt (recordOf st docHash) =? 0),
          revoked (recordOf st docHash),
          issuedAt (recordOf st docHash),
          issuer (recordOf st docHash)) st
  /\ (records st !! docHash = None ->
      verify docHash env st = Done (false, false, 0, 0) st)
  /\ (forall admin txs,
        forallb (fun tx => negb (is_issue_of docHash tx)) txs = true ->
        verify docHash env (run (constructor admin) txs)
        = Done (false, false, 0, 0) (run (constructor admin) txs)).
Proof.
  split; [apply verify_eq|]. split.
  - intros Hnone. rewrite verify_eq, (recordOf_fresh _ _ Hnone). reflexivity.
  - intros admin txs Hall.
    assert (records (run (constructor admin) txs) !! docHash = None) as Hnone.
    { apply untouched_run; [exact Hall|].
      rewrite constructor_records. apply lookup_empty. }
    rewrite verify_eq, (recordOf_fresh _ _ Hnone). reflexivity.
Qed.

(** * The front end *)

(** ** [sha256File] *)

Lemma byte_hex_length b : length (byte_hex b) = 2%nat.
Proof. destruct b; reflexivity. Qed.

Lemma byte_hex_digits b :
  forallb (fun c => bool_decide (c ∈ hex_digits)) (byte_hex b) = true.
Proof. destruct b; vm_compute; reflexivity. Qed.

Lemma byte_hex_read b rest :
  bytes_of_hex (byte_hex b ++ rest) = (bs ← bytes_of_hex rest; Some (b :: bs)).
Proof. destruct b; reflexivity. Qed.

Lemma bytes_hex_length bs : length (concat (map byte_hex bs)) = (2 * length bs)%nat.
Proof.
  induction bs as [|b bs IH]; simpl; [done|].
  rewrite length_app, byte_hex_length, IH. lia.
Qed.

Lemma bytes_hex_read bs : bytes_of_hex (concat (map byte_hex bs)) = Some bs.
Proof.
  induction bs as [|b bs IH]; [done|].
  change (concat (map byte_hex (b :: bs)))
    with (byte_hex b ++ concat (map byte_hex bs)).
  by rewrite byte_hex_read, IH.
Qed.

(** X16.  Whenever the platform's digest has 32 bytes, as SHA-256 does,
    [sha256File] returns a [bytes32] literal: 66 characters, ["0x"]
    followed by 64 lower-case hexadecimal digits, two for each byte, small
    bytes padded with a leading zero. *)
Theorem sha256File_is_bytes32_literal
    (subtle_digest : list byte -> list byte) (file : list byte) :
  length (subtle_digest file) = 32%nat ->
  length (sha256File subtle_digest file) = 66%nat
  /\ is_bytes32_literal (sha256File subtle_digest file) = true.
Proof.
  intros Hlen. unfold sha256File, is_bytes32_literal. simpl.
  rewrite bytes_hex_length, Hlen. split; [reflexivity|]. simpl.
  generalize (subtle_digest file). intros bs.
  induction bs as [|b bs IH]; simpl; [done|].
  rewrite forallb_app, byte_hex_digits, IH. reflexivity.
Qed.

Lemma sha256File_is_bytes32_literal_witness :
  let file := [x01; x0a; xff] in
  sha256File prefix_digest file
  = list_ascii_of_string
      "0x010aff0000000000000000000000000000000000000000000000000000000000"
  /\ length (sha256File prefix_digest file) = 66%nat
  /\ is_bytes32_literal (sha256File prefix_digest file) = true.
Proof.
  cbv zeta. split; [reflexivity|].
  apply sha256File_is_bytes32_literal. reflexivity.
Defined.

(** X17.  [sha256File] loses nothing of the digest: reading the
    hexadecimal digits after ["0x"] back, two a byte, gives the digest's
    bytes again, so two files get the same string only when their digests
    are the same. *)
Theorem sha256File_keeps_the_digest
    (subtle_digest : list byte -> list byte) (file : list byte) :
  bytes_of_hex (drop 2 (sha256File subtle_digest file)) = Some (subtle_digest file)
  /\ (forall file',
        sha256File subtle_digest file = sha256File subtle_digest file' ->
        subtle_digest file = subtle_digest file').
Proof.
  assert (forall f, bytes_of_hex (drop 2 (sha256File subtle_digest f))
                    = Some (subtle_digest f)) as Hread.
  { intros f. unfold sha256File. simpl. apply bytes_hex_read. }
  split; [apply Hread|].
  intros file' Heq. pose proof (Hread file) as H1. rewrite Heq, Hread in H1.
  by injection H1.
Qed.

(** ** The audit feed ([loadEvents]) *)

Lemma insert_by_block_perm x l : insert_by_block x l ≡ₚ x :: l.
Proof.
  induction l as [|y l IH]; simpl; [done|].
  destruct (ev_block x <=? ev_block y); [done|].
  rewrite IH. apply perm_swap.
Qed.

Lemma sort_by_block_perm l : sort_by_block l ≡ₚ l.
Proof.
  induction l as [|x l IH]; simpl; [done|].
  by rewrite insert_by_block_perm, IH.
Qed.

Lemma insert_by_block_sorted x l :
  StronglySorted (fun a b => ev_block a <= ev_block b) l ->
  StronglySorted (fun a b => ev_block a <= ev_block b) (insert_by_block x l).
Proof.
  induction 1 as [|y l Hsorted IH Hall]; simpl; [repeat constructor|].
  destruct (ev_block x <=? ev_block y) eqn:Hle.
  - apply Z.leb_le in Hle. constructor; [by constructor|].
    constructor; [exact Hle|].
    eapply Forall_impl; [exact Hall|]. simpl. intros z Hz. lia.
  - apply Z.leb_gt in Hle. constructor; [exact IH|].
    rewrite insert_by_block_perm. constructor; [lia | exact Hall].
Qed.

Lemma sort_by_block_sorted l :
  StronglySorted (fun a b => ev_block a <= ev_block b) (sort_by_block l).
Proof.
  induction l as [|x l IH]; simpl; [constructor|].
  by apply insert_by_block_sorted.
Qed.

(** X18.  The earlier feed shows the latest events only, oldest first:
    it has [min 20 n] lines for [n] events found, its block numbers never
    decrease from one line to the next, every line gives name, hash,
    issuer and block of an event found, and every event left out is from a
    block no later than that of any event shown. *)
Theorem loadEvents_v1_latest_twenty (issued revoked : list ChainEvent) :
  length (loadEvents_v1 issued revoked) = Nat.min 20 (length issued + length revoked)
  /\ StronglySorted (fun a b => line_block a <= line_block b)
       (loadEvents_v1 issued revoked)
  /\ (forall f, f ∈ loadEvents_v1 issued revoked ->
        exists e, e ∈ issued ++ revoked
                  /\ f = mkFeedLine (ev_name e) (ev_docHash e) (ev_issuer e) (ev_block e))
  /\ exists older,
       issued ++ revoked ≡ₚ older ++ kept_events_v1 issued revoked
       /\ (forall o e,
             o ∈ older -> e ∈ kept_events_v1 issued revoked ->
             ev_block o <= ev_block e).
Proof.
  unfold loadEvents_v1, kept_events_v1. cbv zeta.
  set (s := sort_by_block (issued ++ revoked)).
  pose proof (sort_by_block_sorted (issued ++ revoked)) as Hsorted.
  fold s in Hsorted.
  rewrite <- (take_drop (length s - 20) s) in Hsorted.
  apply StronglySorted_app in Hsorted as (Hcross & _ & Hdrop).
  split; [|split; [|split]].
  - rewrite length_map, length_drop.
    unfold s. rewrite (Permutation_length (sort_by_block_perm _)), length_app.
    lia.
  - change (map feed_line (drop (length s - 20) s))
      with (feed_line <$> drop (length s - 20) s).
    eapply StronglySorted_fmap; [|exact Hdrop]. intros x y Hxy. exact Hxy.
  - intros f Hf.
    change (map feed_line (drop (length s - 20) s))
      with (feed_line <$> drop (length s - 20) s) in Hf.
    apply list_elem_of_fmap in Hf as (e & -> & He).
    exists e. split; [|reflexivity].
    rewrite <- (sort_by_block_perm (issued ++ revoked)). fold s.
    rewrite <- (take_drop (length s - 20) s), elem_of_app. by right.
  - exists (take (length s - 20) s). split.
    + rewrite take_drop. unfold s. by rewrite sort_by_block_perm.
    + exact Hcross.
Qed.

Lemma feed_line_cid_throws e :
  feed_line_cid e = inl (RangeError "out of result range").
Proof. destruct e as [[h who t|h who t] b]; reflexivity. Qed.

Lemma map_throwing_throws {A B} (f : A -> Thrown + B) (err : Thrown) (l : list A) :
  (forall x, f x = inl err) -> l <> [] -> map_throwing f l = inl err.
Proof.
  intros Hf Hl. destruct l as [|x l]; [done|]. simpl. by rewrite Hf.
Qed.

(** X20.  The current feed never shows an event of this contract.  Both
    events carry three values, so the read of [e.args[3]] for the first
    line to show throws: whenever the two queries find anything, the feed
    on screen stays what it was and the status line reads the error; only
    when they find nothing is the feed set, to the empty list. *)
Theorem loadEvents_stops_at_the_cid
    (events : list FeedLineCid) (issued revoked : list ChainEvent) :
  loadEvents events issued revoked =
    match issued ++ revoked with
    | [] => ([], "Events loaded.")
    | _ :: _ => (events, "Error: out of result range")
    end.
Proof.
  unfold loadEvents.
  destruct (issued ++ revoked) as [|e l] eqn:Hall; [reflexivity|].
  rewrite (map_throwing_throws _ (RangeError "out of result range"));
    [reflexivity | apply feed_line_cid_throws |].
  intros Hnil. apply (f_equal length) in Hnil.
  rewrite length_take, length_reverse in Hnil.
  rewrite (Permutation_length (sort_by_block_perm _)) in Hnil.
  simpl in Hnil. lia.
Qed.
